(** * ax6003Py: the SCPI line protocol of [scpy.py]

    A shallow embedding of [prepare_line_to_send], [parse_line] and the
    [Scpy] session methods [write_line] and [command], followed by the
    properties of the protocol engine.  The other methods of [Scpy], the
    device methods of [Ax6003Py] built on them and the polynomial store of
    [calibrations.py] are embedded after the session, and their properties
    follow those of the engine.

    Conventions.
    - Python [bytes] are [list byte].  A Python [str] is held as its UTF-8
      encoding, also a [list byte]: [str.encode()] is then the identity and
      [bytes.decode()] is a validity check.  Splitting on ASCII delimiters,
      deleting non-[0-9,.] characters and stripping white space act on the
      encoding exactly as they act on the code points.
    - A raised exception is a value: [outcome A] is a return value, a raised
      exception, or a loop that is still running when its fuel is spent.
    - Methods of the session are state transformers over the record [Scpy]. *)

From Stdlib Require Import Strings.String Strings.Byte Numbers.DecimalString.
From Stdlib Require Import ZArith NArith QArith Bool List Lia.
From Stdlib Require Import Floats.
From Stdlib Require DecimalPos.
From Stdlib Require Import Sorting.Permutation Sorting.Sorted.
Import ListNotations.

Set Implicit Arguments.
#[local] Set Warnings "-register-all,-inexact-float".
Local Open Scope Z_scope.

(** ** Exceptions and outcomes *)

Inductive exn : Type :=
| IndexError
| ValueError
| TypeError
| UnicodeDecodeError
| SerialException.

Inductive outcome (A : Type) : Type :=
| Return (a : A)
| Raise (e : exn)
| Spin.

Arguments Return {A} a.
Arguments Raise {A} e.
Arguments Spin {A}.

Definition obind {A B : Type} (o : outcome A) (k : A -> outcome B) : outcome B :=
  match o with
  | Return a => k a
  | Raise e => Raise e
  | Spin => Spin
  end.

Declare Scope outcome_scope.
Delimit Scope outcome_scope with outcome.
Notation "'let?' x ':=' o 'in' k" := (obind o (fun x => k))
  (at level 10, x name, o at level 100, k at level 200) : outcome_scope.

(** ** Bytes and text *)

Definition bytes : Type := list byte.
Definition text : Type := list byte.

(** A literal: [b "APPL"] is the Python literal [b'APPL']. *)
Definition b (s : string) : bytes := list_byte_of_string s.

Definition LF : byte := x0a.
Definition CR : byte := x0d.

Definition code (c : byte) : N := Byte.to_N c.

Definition byte_in (lo hi : N) (c : byte) : bool :=
  ((lo <=? code c) && (code c <=? hi))%N.

Definition is_digit (c : byte) : bool := byte_in 48 57 c.

(** [word[-1]]: the last byte, [None] where Python raises [IndexError]. *)
Fixpoint last_byte (w : bytes) : option byte :=
  match w with
  | [] => None
  | [c] => Some c
  | _ :: t => last_byte t
  end.

Fixpoint prefix_of (p l : bytes) : bool :=
  match p, l with
  | [], _ => true
  | _ :: _, [] => false
  | x :: p', y :: l' => Byte.eqb x y && prefix_of p' l'
  end.

(** [needle in hay] on bytes: [needle] occurs as a contiguous run. *)
Fixpoint contains (needle hay : bytes) : bool :=
  prefix_of needle hay ||
  match hay with
  | [] => false
  | _ :: t => contains needle t
  end.


(** ** Python values *)

Inductive pyval : Type :=
| PNone
| PInt (z : Z)
| PFloat (f : float)
| PStr (s : text)
| PList (l : list pyval).

(** ** Builtin [str] on numbers *)

Definition str_int (z : Z) : text := b (NilZero.string_of_int (Z.to_int z)).

Definition str_bool (v : bool) : text := if v then b "True" else b "False".

Definition str_nat (n : Z) : text := b (NilZero.string_of_uint (N.to_uint (Z.to_N n))).

Definition binary64 (x y : spec_float) : spec_float := SFdiv 53 1024 x y.

(** The binary64 nearest to [c * 10^q] (ties to even), for [0 <= c]. *)
Definition decimal_to_float (c q : Z) : spec_float :=
  match c * 10 ^ Z.max q 0 with
  | Zpos num => binary64 (S754_finite false num 0)
                         (S754_finite false (Z.to_pos (10 ^ Z.max (- q) 0)) 0)
  | _ => S754_zero false
  end.

Definition same_finite (x : spec_float) (m : positive) (e : Z) : bool :=
  match x with
  | S754_finite false m' e' => Pos.eqb m' m && Z.eqb e' e
  | _ => false
  end.

(** [x = num / den < 10^d]? *)
Definition below_pow10 (num den d : Z) : bool :=
  num * 10 ^ Z.max (- d) 0 <? den * 10 ^ Z.max d 0.

(** The least [d] from [d0] on with [num / den < 10^d]. *)
Fixpoint decimal_magnitude (fuel : nat) (num den d0 : Z) : Z :=
  match fuel with
  | O => d0
  | S fuel' => if below_pow10 num den d0 then d0
               else decimal_magnitude fuel' num den (d0 + 1)
  end.

(** The shortest decimal [c * 10^q] that reads back as the float [m * 2^e]:
    for each digit count [n] the two [n]-digit neighbours of the float are
    tried, the nearer one first. *)
Fixpoint shortest_from (fuel : nat) (m : positive) (e : Z) (num den d n : Z)
  : Z * Z :=
  let q := d - n in
  let sn := num * 10 ^ Z.max (- q) 0 in
  let sd := den * 10 ^ Z.max q 0 in
  let lo := sn / sd in
  let hi := lo + 1 in
  let lo_ok := same_finite (decimal_to_float lo q) m e in
  let hi_ok := same_finite (decimal_to_float hi q) m e in
  let lo_nearer := 2 * sn <=? (2 * lo + 1) * sd in
  match fuel with
  | O => (lo, q)
  | S fuel' =>
      if lo_ok && (lo_nearer || negb hi_ok) then (lo, q)
      else if hi_ok then (hi, q)
      else shortest_from fuel' m e num den d (n + 1)
  end.

Fixpoint drop_zeros (fuel : nat) (c q : Z) : Z * Z :=
  match fuel with
  | O => (c, q)
  | S fuel' => if (0 <? c) && (c mod 10 =? 0) then drop_zeros fuel' (c / 10) (q + 1)
               else (c, q)
  end.

Definition shortest_digits (m : positive) (e : Z) : Z * Z :=
  let num := Zpos m * 2 ^ Z.max e 0 in
  let den := 2 ^ Z.max (- e) 0 in
  let d := decimal_magnitude 700 num den (-330) in
  let '(c, q) := shortest_from 17 m e num den d 1 in
  drop_zeros 20 c q.

Definition zeros (n : Z) : text := repeat "0"%byte (Z.to_nat n).

Definition format_exponent (x : Z) : text :=
  (if x <? 0 then b "-" else b "+") ++
  (if Z.abs x <? 10 then b "0" else []) ++ str_nat (Z.abs x).

(** The layout of [repr]: [ds] are the significant digits and the decimal
    point stands after the first [decpt] of them. *)
Definition format_short (ds : text) (decpt : Z) : text :=
  let n := Z.of_nat (length ds) in
  if (decpt <=? -4) || (16 <? decpt) then
    firstn 1 ds ++ (if 1 <? n then b "." ++ skipn 1 ds else []) ++
    b "e" ++ format_exponent (decpt - 1)
  else if decpt <=? 0 then b "0." ++ zeros (- decpt) ++ ds
  else if n <=? decpt then ds ++ zeros (decpt - n) ++ b ".0"
  else firstn (Z.to_nat decpt) ds ++ b "." ++ skipn (Z.to_nat decpt) ds.

Definition sign_text (s : bool) : text := if s then b "-" else [].

(** [str(x)] for a float [x]: the shortest decimal that reads back as [x]. *)
Definition float_str (x : float) : text :=
  match Prim2SF x with
  | S754_nan => b "nan"
  | S754_infinity s => sign_text s ++ b "inf"
  | S754_zero s => sign_text s ++ b "0.0"
  | S754_finite s m e =>
      let '(c, q) := shortest_digits m e in
      let ds := str_nat c in
      sign_text s ++ format_short ds (q + Z.of_nat (length ds))
  end.

(** ** Line encoder: [prepare_line_to_send] *)

(** A word handed to the encoder.  [bool] is listed because it passes the
    [isinstance(word, int)] test and is rendered by [str] as a name. *)
Inductive Argument : Type :=
| AInt (z : Z)
| ABool (v : bool)
| AFloat (x : float)
| AStr (s : text)
| ABytes (w : bytes).

(** Lines 29-30: an [int], [float] or [str] word becomes
    [str(word).encode()]; a [bytes] word is taken as it is. *)
Definition encode_word (word : Argument) : bytes :=
  match word with
  | AInt z => str_int z
  | ABool v => str_bool v
  | AFloat x => float_str x
  | AStr s => s
  | ABytes w => w
  end.

(** Lines 32-33: [word[-1]] raises on an empty word. *)
Definition strip_carriage_return (word : bytes) : outcome bytes :=
  match last_byte word with
  | None => Raise IndexError
  | Some c => if Byte.eqb c CR then Return (removelast word) else Return word
  end.

(** Line 36: [b',' if index else b' ']. *)
Definition separator (index : nat) : bytes :=
  match index with
  | O => b " "
  | S _ => b ","
  end.

(** Lines 28-36, the [for] loop over [enumerate(args)]. *)
Fixpoint fill_output_buffer (index : nat) (args : list Argument)
    (output_buffer : list bytes) : outcome (list bytes) :=
  match args with
  | [] => Return output_buffer
  | word :: rest =>
      (let? word := strip_carriage_return (encode_word word) in
       fill_output_buffer (S index) rest
         (output_buffer ++ [word; separator index]))%outcome
  end.

(** Lines 27-41.  [output_buffer.pop(-1)] raises on the empty list. *)
Definition prepare_line_to_send (args : list Argument) : outcome bytes :=
  (let? output_buffer := fill_output_buffer 0 args [] in
   match output_buffer with
   | [] => Raise IndexError
   | _ :: _ => Return (concat (removelast output_buffer ++ [[LF]]))
   end)%outcome.

(** ** Token parser: [parse_line] *)

(** [bytes.decode()]: strict UTF-8. *)
Definition continuation (c : byte) : bool := byte_in 128 191 c.

Definition second_of_three (c0 c1 : byte) : bool :=
  if (code c0 =? 224)%N then byte_in 160 191 c1
  else if (code c0 =? 237)%N then byte_in 128 159 c1
  else continuation c1.

Definition second_of_four (c0 c1 : byte) : bool :=
  if (code c0 =? 240)%N then byte_in 144 191 c1
  else if (code c0 =? 244)%N then byte_in 128 143 c1
  else continuation c1.

Fixpoint utf8_valid (l : bytes) : bool :=
  match l with
  | [] => true
  | c0 :: r0 =>
      if byte_in 0 127 c0 then utf8_valid r0
      else
        match r0 with
        | [] => false
        | c1 :: r1 =>
            if byte_in 194 223 c0 then continuation c1 && utf8_valid r1
            else
              match r1 with
              | [] => false
              | c2 :: r2 =>
                  if byte_in 224 239 c0 then
                    second_of_three c0 c1 && continuation c2 && utf8_valid r2
                  else
                    match r2 with
                    | [] => false
                    | c3 :: r3 =>
                        byte_in 240 244 c0 && second_of_four c0 c1 &&
                        continuation c2 && continuation c3 && utf8_valid r3
                    end
              end
        end
  end.

Definition decode (line : bytes) : outcome text :=
  if utf8_valid line then Return line else Raise UnicodeDecodeError.

(** [str.strip()]: the characters [str.isspace] accepts are U+0009-000D,
    U+001C-0020, U+0085, U+00A0, U+1680, U+2000-200A, U+2028, U+2029,
    U+202F, U+205F and U+3000. *)
Definition is_ascii_space (c : byte) : bool := byte_in 9 13 c || byte_in 28 32 c.

Definition is_byte (n : N) (c : byte) : bool := (code c =? n)%N.

(** Width in bytes of the white-space character the text starts with,
    [0] when it starts with none. *)
Definition space_width (s : text) : nat :=
  match s with
  | c0 :: r =>
      if is_ascii_space c0 then 1%nat
      else
        match r with
        | c1 :: r' =>
            if is_byte 194 c0 && (is_byte 133 c1 || is_byte 160 c1) then 2%nat
            else
              match r' with
              | c2 :: _ =>
                  if is_byte 225 c0 && is_byte 154 c1 && is_byte 128 c2 then 3%nat
                  else if is_byte 226 c0 && is_byte 128 c1 &&
                          (byte_in 128 138 c2 || byte_in 168 169 c2 || is_byte 175 c2)
                       then 3%nat
                  else if is_byte 226 c0 && is_byte 129 c1 && is_byte 159 c2 then 3%nat
                  else if is_byte 227 c0 && is_byte 128 c1 && is_byte 128 c2 then 3%nat
                  else 0%nat
              | [] => 0%nat
              end
        | [] => 0%nat
        end
  | [] => 0%nat
  end.

(** The same at the end of a text, given reversed: [z] is the last byte,
    [y] the one before it, [x] the one before that. *)
Definition space_width_rev (r : text) : nat :=
  match r with
  | z :: before =>
      if is_ascii_space z then 1%nat
      else
        match before with
        | y :: before' =>
            if Nat.eqb (space_width [y; z]) 2 then 2%nat
            else
              match before' with
              | x :: _ => if Nat.eqb (space_width [x; y; z]) 3 then 3%nat else 0%nat
              | [] => 0%nat
              end
        | [] => 0%nat
        end
  | [] => 0%nat
  end.

Fixpoint strip_front (width : text -> nat) (fuel : nat) (s : text) : text :=
  match fuel with
  | O => s
  | S fuel' =>
      match width s with
      | O => s
      | w => strip_front width fuel' (skipn w s)
      end
  end.

Definition lstrip (s : text) : text := strip_front space_width (length s) s.

Definition rstrip (s : text) : text :=
  rev (strip_front space_width_rev (length s) (rev s)).

Definition strip (s : text) : text := rstrip (lstrip s).

(** [re.split(r"[, ;#!?:]+", line)]. *)
Definition is_delimiter (c : byte) : bool :=
  existsb (Byte.eqb c) (b ", ;#!?:").

Definition starts_with_delimiter (s : text) : bool :=
  match s with
  | c :: _ => is_delimiter c
  | [] => false
  end.

(** Every maximal run of delimiters is one split point; the pieces before
    the first and after the last split point are kept even when empty. *)
Fixpoint re_split (s : text) : list text :=
  match s with
  | [] => [[]]
  | c :: rest =>
      if is_delimiter c then
        if starts_with_delimiter rest then re_split rest else [] :: re_split rest
      else
        match re_split rest with
        | token :: tokens => (c :: token) :: tokens
        | [] => [[c]]
        end
  end.

(** [re.sub('[^0-9,.]', '', token)]. *)
Definition kept (c : byte) : bool := is_digit c || is_byte 44 c || is_byte 46 c.

Definition re_sub (token : text) : text := filter kept token.

Definition digit_value (c : byte) : Z := Z.of_N (code c) - 48.

Definition digits_value (ds : text) : Z :=
  fold_left (fun acc c => 10 * acc + digit_value c) ds 0.

Definition all_digits (s : text) : bool := forallb is_digit s.

(** [int(cleaned)] and [float(cleaned)] on text over [0-9,.], the only text
    line 63 lets through: [int] wants one or more digits; [float] wants
    digits with at most one period among them.  [ValueError] otherwise.
    (The builtins accept more outside that alphabet: signs, exponents,
    underscores, surrounding blanks.  An interpreter that limits the digits
    of an [int] conversion does so at 4300 digits.) *)
Definition py_int (s : text) : outcome Z :=
  match s with
  | [] => Raise ValueError
  | _ :: _ => if all_digits s then Return (digits_value s) else Raise ValueError
  end.

Fixpoint split_at_period (s : text) : text * option text :=
  match s with
  | [] => ([], None)
  | c :: rest =>
      if is_byte 46 c then ([], Some rest)
      else let '(whole, fraction) := split_at_period rest in (c :: whole, fraction)
  end.

Definition py_float (s : text) : outcome float :=
  let '(whole, fraction) := split_at_period s in
  let frac := match fraction with Some f => f | None => [] end in
  match whole ++ frac with
  | [] => Raise ValueError
  | _ :: _ =>
      if all_digits whole && all_digits frac then
        Return (SF2Prim (decimal_to_float (digits_value (whole ++ frac))
                                          (- Z.of_nat (length frac))))
      else Raise ValueError
  end.

(** [try: ... except ValueError: handler]. *)
Definition except_ValueError {A : Type} (body handler : outcome A) : outcome A :=
  match body with
  | Raise ValueError => handler
  | _ => body
  end.

(** Lines 63-74: one turn of the [for] loop. *)
Definition convert_token (token : text) : outcome pyval :=
  let cleaned := re_sub token in
  except_ValueError
    (let? z := py_int cleaned in Return (PInt z))%outcome
    (except_ValueError
       (let? x := py_float cleaned in Return (PFloat x))%outcome
       (Return (PStr token))).

Fixpoint convert_tokens (tokens : list text) (output_val : list pyval)
  : outcome (list pyval) :=
  match tokens with
  | [] => Return output_val
  | token :: rest =>
      (let? v := convert_token token in
       convert_tokens rest (output_val ++ [v]))%outcome
  end.

(** Lines 76-80 and, word for word, lines 177-181. *)
Definition collapse (values : list pyval) : pyval :=
  match values with
  | [v] => v
  | [] => PNone
  | _ => PList values
  end.

(** Lines 59-80. *)
Definition parse_line (line : bytes) : outcome pyval :=
  (let? decoded := decode line in
   let line := strip decoded in
   let tokens := re_split line in
   let? output_val := convert_tokens tokens [] in
   Return (collapse output_val))%outcome.

(** ** The session: [class Scpy(serial.Serial)] *)

(** The attributes the methods touch, and the far end of the cable.
    - [timeout], [echo_of_the_command]: the attributes of those names.
    - [out_waiting]: bytes queued for transmission; [in_waiting]: bytes that
      arrived before the call and sit in the receive buffer.
    - [wire]: every byte handed to [write], oldest first.
    - [transcript]: what the coming [readline] calls return, in order; once
      it is used up a [readline] times out and returns [b''].
    - [link]: how many more transport operations succeed before the port
      fails with [SerialException]; [None] for a port that stays up. *)
Record Scpy : Type := mkScpy {
  timeout : Q;
  echo_of_the_command : option bytes;
  out_waiting : nat;
  in_waiting : bytes;
  wire : bytes;
  transcript : list bytes;
  link : option nat
}.

Definition M (A : Type) : Type := Scpy -> outcome A * Scpy.

Definition ret {A : Type} (a : A) : M A := fun s => (Return a, s).

Definition raise {A : Type} (e : exn) : M A := fun s => (Raise e, s).

Definition spin {A : Type} : M A := fun s => (Spin, s).

Definition lift {A : Type} (o : outcome A) : M A := fun s => (o, s).

Definition bind {A B : Type} (m : M A) (k : A -> M B) : M B :=
  fun s =>
    match m s with
    | (Return a, s') => k a s'
    | (Raise e, s') => (Raise e, s')
    | (Spin, s') => (Spin, s')
    end.

Declare Scope session_scope.
Delimit Scope session_scope with session.
Notation "'let!' x ':=' m 'in' k" := (bind m (fun x => k))
  (at level 10, x name, m at level 100, k at level 200) : session_scope.
Notation "m ';;' k" := (bind m (fun _ => k))
  (at level 100, right associativity) : session_scope.

Definition set_timeout (t : Q) : M unit :=
  fun s => (Return tt,
            mkScpy t (echo_of_the_command s) (out_waiting s) (in_waiting s)
                   (wire s) (transcript s) (link s)).

Definition set_echo_of_the_command (e : option bytes) : M unit :=
  fun s => (Return tt,
            mkScpy (timeout s) e (out_waiting s) (in_waiting s)
                   (wire s) (transcript s) (link s)).

Definition get_timeout : M Q := fun s => (Return (timeout s), s).

Definition get_echo_of_the_command : M (option bytes) :=
  fun s => (Return (echo_of_the_command s), s).

(** *** The inherited transport operations *)

(** An operation on a failed port raises and changes nothing. *)
Definition transport {A : Type} (op : Scpy -> A * Scpy) : M A :=
  fun s =>
    match link s with
    | Some O => (Raise SerialException, s)
    | Some (S n) =>
        let '(a, s') := op (mkScpy (timeout s) (echo_of_the_command s)
                                   (out_waiting s) (in_waiting s) (wire s)
                                   (transcript s) (Some n)) in
        (Return a, s')
    | None => let '(a, s') := op s in (Return a, s')
    end.

(** [flush()] returns once the output queue has been transmitted. *)
Definition flush : M unit :=
  transport (fun s =>
    (tt, mkScpy (timeout s) (echo_of_the_command s) O (in_waiting s)
                (wire s) (transcript s) (link s))).

(** Reading the [out_waiting] property; the port keeps transmitting, one
    byte between two polls. *)
Definition poll_out_waiting : M nat :=
  transport (fun s =>
    (out_waiting s,
     mkScpy (timeout s) (echo_of_the_command s) (pred (out_waiting s))
            (in_waiting s) (wire s) (transcript s) (link s))).

(** [read_all()] empties the receive buffer. *)
Definition read_all : M bytes :=
  transport (fun s =>
    (in_waiting s,
     mkScpy (timeout s) (echo_of_the_command s) (out_waiting s) []
            (wire s) (transcript s) (link s))).

Definition write (data : bytes) : M nat :=
  transport (fun s =>
    (length data,
     mkScpy (timeout s) (echo_of_the_command s)
            (out_waiting s + length data)%nat (in_waiting s)
            (wire s ++ data) (transcript s) (link s))).

Definition readline : M bytes :=
  transport (fun s =>
    match transcript s with
    | [] => ([], s)
    | line :: rest =>
        (line, mkScpy (timeout s) (echo_of_the_command s) (out_waiting s)
                      (in_waiting s) (wire s) rest (link s))
    end).

(** [time.sleep]: no attribute changes. *)
Definition sleep (seconds : Q) : M unit := ret tt.

(** *** [write_line] and [command] *)

(** [while self.out_waiting: pass]. *)
Fixpoint wait_out_waiting (fuel : nat) : M unit :=
  match fuel with
  | O => spin
  | S fuel' =>
      (let! queued := poll_out_waiting in
       match queued with
       | O => ret tt
       | S _ => wait_out_waiting fuel'
       end)%session
  end.

(** Lines 109-114. *)
Definition write_line (fuel : nat) (args : list Argument) : M unit :=
  (let! line := lift (prepare_line_to_send args) in
   wait_out_waiting fuel ;;
   set_echo_of_the_command (Some line) ;;
   let! _ := write line in
   flush)%session.

(** [v == ''], the test behind ['' in response] and [response.remove('')]. *)
Definition is_empty_str (v : pyval) : bool :=
  match v with
  | PStr [] => true
  | _ => false
  end.

Fixpoint remove_empty_str (response : list pyval) : list pyval :=
  match response with
  | [] => []
  | v :: rest => if is_empty_str v then rest else v :: remove_empty_str rest
  end.

(** Lines 163-173, the [while True] loop. *)
Fixpoint await_response (fuel : nat) (response : list pyval) : M (list pyval) :=
  match fuel with
  | O => spin
  | S fuel' =>
      match response with
      | _ :: _ => ret response
      | [] =>
          (let! line := readline in
           let! echo := get_echo_of_the_command in
           match echo with
           | None => raise TypeError
           | Some echo =>
               if contains echo line then await_response fuel' response
               else
                 let! parsed := lift (parse_line line) in
                 let response := response ++ [parsed] in
                 if existsb is_empty_str response
                 then ret (remove_empty_str response)
                 else await_response fuel' response
           end)%session
      end
  end.

(** The default of the keyword argument [timeout]. *)
Definition default_timeout : Q := 5 # 2.

(** Lines 154-181.  [fuel] bounds the turns of each loop. *)
Definition command (fuel : nat) (args : list Argument) (timeout : Q) : M pyval :=
  (let! tmp_timeout := get_timeout in
   set_timeout timeout ;;
   flush ;;
   wait_out_waiting fuel ;;
   sleep (1 # 4) ;;
   let! _ := read_all in
   write_line fuel args ;;
   let! response := await_response fuel [] in
   set_echo_of_the_command None ;;
   set_timeout tmp_timeout ;;
   ret (collapse response))%session.

(** ** The other methods of [Scpy] *)

(** [readlines()], inherited from the stream classes: lines are read until
    a read returns [b'']. *)
Fixpoint readlines (fuel : nat) (lines : list bytes) : M (list bytes) :=
  match fuel with
  | O => spin
  | S fuel' =>
      (let! line := readline in
       match line with
       | [] => ret lines
       | _ :: _ => readlines fuel' (lines ++ [line])
       end)%session
  end.

(** The default of the keyword argument [timeout] of [raw_lines]. *)
Definition raw_lines_timeout : Q := 5.

(** Lines 130-136. *)
Definition raw_lines (fuel : nat) (args : list Argument) (timeout : Q)
  : M (list bytes) :=
  (let! tmp_timeout := get_timeout in
   set_timeout timeout ;;
   let! _ := read_all in
   write_line fuel args ;;
   let! lines := readlines fuel [] in
   set_timeout tmp_timeout ;;
   ret lines)%session.

(** Lines 191, 201 and 211. *)
Definition id_number (fuel : nat) : M pyval :=
  command fuel [AStr (b "*IDN?")] default_timeout.

Definition status (fuel : nat) : M pyval :=
  command fuel [AStr (b "*ESR?")] default_timeout.

Definition ready (fuel : nat) : M pyval :=
  command fuel [AStr (b "*OPC?")] default_timeout.

(** Lines 221-222. *)
Definition clear_errors (fuel : nat) : M pyval :=
  (write_line fuel [AStr (b "*CLS")] ;;
   command fuel [AStr (b "*ESR?")] default_timeout)%session.

(** [word != 0]: a number differs from zero by its value, any text does. *)
Definition differs_from_zero (word : Argument) : bool :=
  match word with
  | AInt z => negb (z =? 0)
  | ABool v => v
  | AFloat x => negb (PrimFloat.eqb x 0)
  | AStr _ => true
  | ABytes _ => true
  end.

(** Lines 237-240. *)
Definition power_on_clean_status (fuel : nat) (state : option Argument) : M pyval :=
  (match state with
   | Some state =>
       let state := if differs_from_zero state then 1 else 0 in
       write_line fuel [AStr (b "*PSC"); AInt state]
   | None => ret tt
   end ;;
   command fuel [AStr (b "*PSC?")] default_timeout)%session.

(** Lines 250-252. *)
Definition reset (fuel : nat) : M pyval :=
  (write_line fuel [AStr (b "*RST")] ;;
   sleep 7 ;;
   command fuel [AStr (b "*OPC?")] default_timeout)%session.

(** ** The device facade: [class Ax6003Py(scpy.Scpy)] *)

(** Truth value of a word, as [if word] and [word and ...] take it. *)
Definition truthy (word : Argument) : bool :=
  match word with
  | AInt z => negb (z =? 0)
  | ABool v => v
  | AFloat x => negb (PrimFloat.eqb x 0)
  | AStr s => match s with [] => false | _ :: _ => true end
  | ABytes w => match w with [] => false | _ :: _ => true end
  end.

Fixpoint bytes_eqb (x y : bytes) : bool :=
  match x, y with
  | [], [] => true
  | c :: x', d :: y' => Byte.eqb c d && bytes_eqb x' y'
  | _, _ => false
  end.

(** [word == 'ON']: only a [str] equals a [str]. *)
Definition equals_str (word : Argument) (s : text) : bool :=
  match word with
  | AStr w => bytes_eqb w s
  | _ => false
  end.

(** [word == 1]: numbers compare by value, [True] is the number one. *)
Definition equals_one (word : Argument) : bool :=
  match word with
  | AInt z => z =? 1
  | ABool v => v
  | AFloat x => PrimFloat.eqb x 1
  | AStr _ => false
  | ABytes _ => false
  end.

(** The characters of a text: a byte and the continuation bytes after it. *)
Fixpoint chars (s : text) : list text :=
  match s with
  | [] => []
  | c :: rest =>
      match rest with
      | next :: _ =>
          if continuation next then
            match chars rest with
            | ch :: more => (c :: ch) :: more
            | [] => [[c]]
            end
          else [c] :: chars rest
      | [] => [[c]]
      end
  end.

(** [value[index]] for an index that is not negative. *)
Definition getitem (value : pyval) (index : nat) : outcome pyval :=
  match value with
  | PList l =>
      match nth_error l index with
      | Some v => Return v
      | None => Raise IndexError
      end
  | PStr s =>
      match nth_error (chars s) index with
      | Some ch => Return (PStr ch)
      | None => Raise IndexError
      end
  | PNone => Raise TypeError
  | PInt _ => Raise TypeError
  | PFloat _ => Raise TypeError
  end.

(** [1 if value == 'ON' else 0]. *)
Definition one_if_on (value : pyval) : pyval :=
  match value with
  | PStr s => if bytes_eqb s (b "ON") then PInt 1 else PInt 0
  | _ => PInt 0
  end.

(** Lines 77-79. *)
Definition apply_voltage (fuel : nat) (volts : option Argument) : M pyval :=
  (match volts with
   | Some volts => write_line fuel [AStr (b ":VOLT"); volts]
   | None => ret tt
   end ;;
   let! reply := command fuel [AStr (b "APPL?")] default_timeout in
   lift (getitem reply 0))%session.

(** Lines 94-96. *)
Definition apply_current (fuel : nat) (ampers : option Argument) : M pyval :=
  (match ampers with
   | Some ampers => write_line fuel [AStr (b ":CURR"); ampers]
   | None => ret tt
   end ;;
   let! reply := command fuel [AStr (b "APPL?")] default_timeout in
   lift (getitem reply 1))%session.

(** Lines 113-115: [if volts and ampers]. *)
Definition apply (fuel : nat) (volts ampers : option Argument) : M pyval :=
  (match volts, ampers with
   | Some volts, Some ampers =>
       if truthy volts && truthy ampers
       then write_line fuel [AStr (b ":APPL"); volts; ampers]
       else ret tt
   | _, _ => ret tt
   end ;;
   command fuel [AStr (b "APPL?")] default_timeout)%session.

(** Lines 125, 135 and 145. *)
Definition measure_voltage (fuel : nat) : M pyval :=
  command fuel [AStr (b ":MEAS:VOLT?")] default_timeout.

Definition measure_current (fuel : nat) : M pyval :=
  command fuel [AStr (b ":MEAS:CURR?")] default_timeout.

Definition measure_power (fuel : nat) : M pyval :=
  command fuel [AStr (b ":MEAS:POWer?")] default_timeout.

(** Line 161: ['ON' if on == 'ON' or on == 1 else 'OFF']. *)
Definition output_word (on : Argument) : text :=
  if equals_str on (b "ON") || equals_one on then b "ON" else b "OFF".

(** Lines 160-163. *)
Definition output (fuel : nat) (on : option Argument) : M pyval :=
  (match on with
   | Some on => write_line fuel [AStr (b ":OUTP"); AStr (output_word on)]
   | None => ret tt
   end ;;
   let! reply := command fuel [AStr (b ":OUTP?")] default_timeout in
   ret (one_if_on reply))%session.

(** Lines 178-180. *)
Definition delay_time (fuel : nat) (delay_sec : option Argument) : M pyval :=
  (match delay_sec with
   | Some delay_sec => write_line fuel [AStr (b ":SYST:AUTO:DEL"); delay_sec]
   | None => ret tt
   end ;;
   command fuel [AStr (b ":SYST:AUTO:DEL?")] default_timeout)%session.

(** Lines 195-197. *)
Definition current_protection_level (fuel : nat) (ampers : option Argument)
  : M pyval :=
  (match ampers with
   | Some ampers => write_line fuel [AStr (b ":CURR:PROT:LEV"); ampers]
   | None => ret tt
   end ;;
   command fuel [AStr (b ":CURR:PROT:LEV?")] default_timeout)%session.

(** Lines 213 and 252: ['ON' if on and on != 'OFF' else 'OFF']. *)
Definition protection_word (on : Argument) : text :=
  if truthy on && negb (equals_str on (b "OFF")) then b "ON" else b "OFF".

(** Lines 212-215. *)
Definition current_protection_state (fuel : nat) (on : option Argument)
  : M pyval :=
  (match on with
   | Some on => write_line fuel [AStr (b ":CURR:PROT:STAT"); AStr (protection_word on)]
   | None => ret tt
   end ;;
   let! reply := command fuel [AStr (b ":CURR:PROT:STAT?")] default_timeout in
   ret (one_if_on reply))%session.

(** Line 225. *)
Definition current_protection_triped (fuel : nat) : M pyval :=
  (let! reply := command fuel [AStr (b ":CURR:PROT:TRIP?")] default_timeout in
   ret (one_if_on reply))%session.

(** Lines 235-236. *)
Definition current_protection_clear (fuel : nat) : M pyval :=
  (let! _ := command fuel [AStr (b ":CURR:PROT:CLE")] default_timeout in
   let! reply := command fuel [AStr (b ":CURR:PROT:TRIP?")] default_timeout in
   ret (one_if_on reply))%session.

(** Lines 251-254. *)
Definition voltage_protection_state (fuel : nat) (on : option Argument)
  : M pyval :=
  (match on with
   | Some on => write_line fuel [AStr (b ":VOLT:PROT:STAT"); AStr (protection_word on)]
   | None => ret tt
   end ;;
   let! reply := command fuel [AStr (b ":VOLT:PROT:STAT?")] default_timeout in
   ret (one_if_on reply))%session.

(** Lines 269-271. *)
Definition voltage_protection_level (fuel : nat) (volts : option Argument)
  : M pyval :=
  (match volts with
   | Some volts => write_line fuel [AStr (b ":VOLT:PROT:LEV"); volts]
   | None => ret tt
   end ;;
   command fuel [AStr (b ":VOLT:PROT:LEV?")] default_timeout)%session.

(** Line 281. *)
Definition voltage_protection_triped (fuel : nat) : M pyval :=
  (let! reply := command fuel [AStr (b ":VOLT:PROT:TRIP?")] default_timeout in
   ret (one_if_on reply))%session.

(** Lines 291-292. *)
Definition voltage_protection_clear (fuel : nat) : M pyval :=
  (let! _ := command fuel [AStr (b ":VOLT:PROT:CLE")] default_timeout in
   let! reply := command fuel [AStr (b ":VOLT:PROT:TRIP?")] default_timeout in
   ret (one_if_on reply))%session.

(** ** Calibration polynomials: [class Calibrations] *)

(** [poly_dict]: the polynomial names with their coefficient lists, one
    item per name, in insertion order.  Coefficients and arguments are
    floats, as the annotations of the class have them. *)
Definition poly_dict : Type := list (text * list float).

(** [poly_dict.get(name)]. *)
Fixpoint dict_get (d : poly_dict) (name : text) : option (list float) :=
  match d with
  | [] => None
  | (k, v) :: rest => if bytes_eqb k name then Some v else dict_get rest name
  end.

(** [poly_dict[name] = coef]: the value of a name that is present is
    replaced where it stands, a new name is appended. *)
Fixpoint dict_set (d : poly_dict) (name : text) (coef : list float) : poly_dict :=
  match d with
  | [] => [(name, coef)]
  | (k, v) :: rest =>
      if bytes_eqb k name then (k, coef) :: rest
      else (k, v) :: dict_set rest name coef
  end.

(** Lines 11-15, [Calibrations()]. *)
Definition Calibrations : poly_dict :=
  [(b "equ", [1%float; 0%float]); (b "hlv", [0.5%float; 0%float])].

(** What [polynom] raises: [KeyError] besides the errors of [exn]. *)
Inductive raised : Type :=
| KeyError
| Other (e : exn).

(** Lines 33-35: Horner's scheme from [0.0]. *)
Definition horner (x : float) (coef : list float) : float :=
  fold_left (fun result c => (result * x + c)%float) coef 0%float.

(** Lines 26-36. *)
Definition polynom (d : poly_dict) (x : float) (name_of_coef : text)
  : float + raised :=
  match dict_get d name_of_coef with
  | None => inr KeyError
  | Some [] => inr (Other ValueError)
  | Some coef => inl (horner x coef)
  end.

(** Lines 38-41. *)
Definition add_polynom (d : poly_dict) (coef : list float) (polynom_name : text)
  : outcome unit * poly_dict :=
  match coef with
  | [] => (Raise ValueError, d)
  | _ :: _ => (Return tt, dict_set d polynom_name coef)
  end.

(** Order of [str]: by code point, which on UTF-8 text is the order of
    the bytes. *)
Fixpoint text_leb (x y : text) : bool :=
  match x, y with
  | [], _ => true
  | _ :: _, [] => false
  | c :: x', d :: y' =>
      if (code c <? code d)%N then true
      else if (code d <? code c)%N then false
      else text_leb x' y'
  end.

(** [sorted(poly_dict.items())]: the names of a dict differ, so the items
    are ordered by name alone. *)
Fixpoint insert_item (item : text * list float) (items : poly_dict) : poly_dict :=
  match items with
  | [] => [item]
  | i :: rest =>
      if text_leb (fst item) (fst i) then item :: i :: rest
      else i :: insert_item item rest
  end.

Definition sorted (items : poly_dict) : poly_dict :=
  fold_right insert_item [] items.

(** [sep.join(parts)]. *)
Fixpoint join (sep : text) (parts : list text) : text :=
  match parts with
  | [] => []
  | [p] => p
  | p :: rest => p ++ sep ++ join sep rest
  end.

(** [str(v)] of a list of floats. *)
Definition str_list (v : list float) : text :=
  b "[" ++ join (b ", ") (map float_str v) ++ b "]".

(** Lines 43-45. *)
Definition polynoms_list (d : poly_dict) : text :=
  join (b ", ")
       (map (fun item => fst item ++ b ": " ++ str_list (snd item)) (sorted d)).

(** ** Vocabulary of the statements *)

(** The chunks of a line joined as lines 35-39 leave them: chunk number
    [i + 1] follows [separator i]. *)
Fixpoint join_chunks (index : nat) (chunks : list bytes) : bytes :=
  match chunks with
  | [] => []
  | [w] => w
  | w :: rest => w ++ separator index ++ join_chunks (S index) rest
  end.

Fixpoint interleave (index : nat) (chunks : list bytes) : list bytes :=
  match chunks with
  | [] => []
  | w :: rest => w :: separator index :: interleave (S index) rest
  end.

Definition chunk_of (word : Argument) (w : bytes) : Prop :=
  strip_carriage_return (encode_word word) = Return w.

(** The typed value of a token, as lines 63-74 compute it. *)
Definition token_value (token : text) : pyval :=
  match py_int (re_sub token) with
  | Return z => PInt z
  | _ =>
      match py_float (re_sub token) with
      | Return x => PFloat x
      | _ => PStr token
      end
  end.

Definition no_delimiter (s : text) : bool :=
  forallb (fun c => negb (is_delimiter c)) s.

Definition ends_with_delimiter (s : text) : bool :=
  match last_byte s with
  | Some c => is_delimiter c
  | None => false
  end.

(** The session with another transcript ahead of it. *)
Definition with_transcript (s : Scpy) (lines : list bytes) : Scpy :=
  mkScpy (timeout s) (echo_of_the_command s) (out_waiting s) (in_waiting s)
         (wire s) lines (link s).

(** The session while [command] awaits the response: the per-call timeout
    is installed, [line] has been written and is the echo marker. *)
Definition awaiting (s : Scpy) (t : Q) (line : bytes) (lines : list bytes) : Scpy :=
  mkScpy t (Some line) 0 [] (wire s ++ line) lines (link s).

(** The session after [command] has returned. *)
Definition after_command (s : Scpy) (line : bytes) (lines : list bytes) : Scpy :=
  mkScpy (timeout s) None 0 [] (wire s ++ line) lines (link s).

(** Lines 175-181. *)
Definition finish (tmp_timeout : Q) (response : list pyval) : M pyval :=
  (set_echo_of_the_command None ;;
   set_timeout tmp_timeout ;;
   ret (collapse response))%session.

(** [m] leaves the attribute [proj] as it found it, however it ends. *)
Definition keeps {A B : Type} (proj : Scpy -> B) (m : M A) : Prop :=
  forall s, proj (snd (m s)) = proj s.

(** [m] never returns normally. *)
Definition fails {A : Type} (m : M A) : Prop :=
  forall s v, fst (m s) <> Return v.

(** [m] ends with [timeout] set to [tmp] when it returns, and unchanged
    when it does not. *)
Definition restores {A : Type} (tmp : Q) (m : M A) : Prop :=
  forall s,
    timeout (snd (m s))
    = match fst (m s) with
      | Return _ => tmp
      | _ => timeout s
      end.

(** [setter], run from [s], returns after putting [data] on the wire; the
    port is still up, the timeout and the pending input are as in [s]. *)
Definition sets (setter : M unit) (s : Scpy) (data : bytes) : Prop :=
  exists s1,
    setter s = (Return tt, s1) /\
    link s1 = None /\
    timeout s1 = timeout s /\
    wire s1 = wire s ++ data /\
    transcript s1 = transcript s.

(** What an optional argument puts on the wire ahead of the query. *)
Definition set_line (mnemonic : text) (value : option Argument) : outcome bytes :=
  match value with
  | Some value => prepare_line_to_send [AStr mnemonic; value]
  | None => Return []
  end.

(** What [command] returns for an accepted reply of value [v]. *)
Definition reported (v : pyval) : pyval :=
  if is_empty_str v then PNone else v.

(** What [output] writes ahead of its query. *)
Definition output_data (on : option Argument) : bytes :=
  match on with
  | Some on => b ":OUTP " ++ output_word on ++ [LF]
  | None => []
  end.

(** The dict after a run of [add_polynom] calls, the raising ones
    included. *)
Definition add_all (calls : list (list float * text)) (d : poly_dict) : poly_dict :=
  fold_left (fun d call => snd (add_polynom d (fst call) (snd call))) calls d.

(** Every name once, every coefficient list with an entry. *)
Definition well_formed (d : poly_dict) : Prop :=
  NoDup (map fst d) /\ Forall (fun item => snd item <> []) d.

(** * Properties *)

Arguments prepare_line_to_send : simpl never.
Arguments parse_line : simpl never.
Arguments contains : simpl never.
Arguments float_str : simpl never.
Arguments str_int : simpl never.

(** ** Bytes *)

Lemma prefix_of_spec : forall p l : bytes,
    prefix_of p l = true <-> exists post, l = p ++ post.
Proof.
  induction p as [|x p IH]; intros l; simpl.
  - split; [eauto | reflexivity].
  - destruct l as [|y l]; [split; [discriminate | intros [post E]; discriminate]|].
    rewrite andb_true_iff, IH. split.
    + intros [Exy [post ->]]. apply Byte.byte_dec_bl in Exy. subst y. eauto.
    + intros [post E]. injection E as -> ->.
      split; [now apply Byte.byte_dec_lb | eauto].
Qed.

(** [contains] is containment as a contiguous run, the [in] of [bytes]. *)
Lemma contains_spec : forall needle hay : bytes,
    contains needle hay = true <-> exists pre post, hay = pre ++ needle ++ post.
Proof.
  intros needle. induction hay as [|c hay IH]; unfold contains; fold contains.
  - rewrite orb_false_r, prefix_of_spec. split.
    + intros [post E]. exists [], post. exact E.
    + intros [pre [post E]]. destruct pre; [eauto | discriminate].
  - rewrite orb_true_iff, prefix_of_spec, IH. split.
    + intros [[post E]|[pre [post E]]].
      * exists [], post. exact E.
      * exists (c :: pre), post. now rewrite E.
    + intros [[|c' pre] [post E]].
      * left. eauto.
      * right. injection E as _ E. eauto.
Qed.

Lemma contains_refl : forall l : bytes, contains l l = true.
Proof.
  intros l. apply contains_spec. exists [], []. now rewrite app_nil_r.
Qed.

Lemma contains_nil : forall needle : bytes, needle <> [] -> contains needle [] = false.
Proof. intros [|c l] H; [congruence | reflexivity]. Qed.

Lemma last_byte_none : forall w : bytes, last_byte w = None <-> w = [].
Proof.
  induction w as [|c w IH]; simpl; [tauto|].
  destruct w as [|c' w']; [split; discriminate|].
  split; [|discriminate]. intros H. apply IH in H. discriminate.
Qed.


(** ** The line encoder *)

Lemma strip_carriage_return_empty :
  strip_carriage_return [] = Raise IndexError.
Proof. reflexivity. Qed.



Lemma fill_output_buffer_interleave :
  forall args chunks index output_buffer,
    Forall2 chunk_of args chunks ->
    fill_output_buffer index args output_buffer
    = Return (output_buffer ++ interleave index chunks).
Proof.
  intros args chunks index output_buffer H. revert index output_buffer.
  induction H as [|word w args chunks Hw _ IH]; intros index output_buffer; simpl.
  - now rewrite app_nil_r.
  - unfold chunk_of in Hw. rewrite Hw. simpl. rewrite IH.
    now rewrite <- app_assoc.
Qed.

Lemma fill_output_buffer_empty_word :
  forall args index output_buffer,
    Exists (fun word => encode_word word = []) args ->
    fill_output_buffer index args output_buffer = Raise IndexError.
Proof.
  induction args as [|word args IH]; intros index output_buffer H.
  - inversion H.
  - simpl. unfold strip_carriage_return at 1.
    destruct (last_byte (encode_word word)) as [c|] eqn:E; [|reflexivity].
    inversion H as [? ? Hw|? ? Hrest]; subst.
    + rewrite Hw in E. discriminate.
    + destruct (Byte.eqb c CR); simpl; now apply IH.
Qed.

Lemma concat_removelast_interleave : forall chunks index,
    concat (removelast (interleave index chunks)) = join_chunks index chunks.
Proof.
  induction chunks as [|w [|w' rest] IH]; intros index.
  - reflexivity.
  - simpl. now rewrite app_nil_r.
  - specialize (IH (S index)).
    change (interleave index (w :: w' :: rest))
      with (w :: separator index :: interleave (S index) (w' :: rest)).
    change (join_chunks index (w :: w' :: rest))
      with (w ++ separator index ++ join_chunks (S index) (w' :: rest)).
    rewrite <- IH.
    change (interleave (S index) (w' :: rest))
      with (w' :: separator (S index) :: interleave (S (S index)) rest).
    reflexivity.
Qed.

Lemma prepare_line_to_send_joined : forall args chunks,
    args <> [] ->
    Forall2 chunk_of args chunks ->
    prepare_line_to_send args = Return (join_chunks 0 chunks ++ [LF]).
Proof.
  intros args chunks Hne H. unfold prepare_line_to_send.
  rewrite (fill_output_buffer_interleave 0 [] H).
  destruct H as [|word w args chunks Hw H]; [congruence|].
  rewrite app_nil_l. unfold obind.
  change (interleave 0 (w :: chunks))
    with (w :: separator 0 :: interleave 1 chunks).
  rewrite concat_app.
  change (w :: separator 0 :: interleave 1 chunks)
    with (interleave 0 (w :: chunks)).
  rewrite concat_removelast_interleave. simpl concat.
  reflexivity.
Qed.




Lemma app_nonempty_r : forall (l l' : bytes), l' <> [] -> l ++ l' <> [].
Proof. intros l l' H E. apply app_eq_nil in E. tauto. Qed.

Lemma format_short_nonempty : forall ds decpt, format_short ds decpt <> [].
Proof.
  intros ds decpt. unfold format_short.
  destruct ((decpt <=? -4) || (16 <? decpt)).
  - apply app_nonempty_r, app_nonempty_r. discriminate.
  - destruct (decpt <=? 0); [discriminate|].
    destruct (Z.of_nat (length ds) <=? decpt).
    + apply app_nonempty_r, app_nonempty_r. discriminate.
    + apply app_nonempty_r. discriminate.
Qed.

Lemma float_str_nonempty : forall x : float, float_str x <> [].
Proof.
  intros x. unfold float_str.
  destruct (Prim2SF x) as [s|s| |s m e].
  - apply app_nonempty_r. discriminate.
  - apply app_nonempty_r. discriminate.
  - discriminate.
  - destruct (shortest_digits m e) as [c q].
    apply app_nonempty_r, format_short_nonempty.
Qed.

Lemma str_int_nonempty : forall z : Z, str_int z <> [].
Proof.
  intros z. unfold str_int.
  destruct (Z.to_int z) as [d|d]; [destruct d|]; discriminate.
Qed.

(** Only the empty [str] and the empty [bytes] have an empty textual form. *)
Lemma encode_word_empty : forall word : Argument,
    encode_word word = [] <-> word = AStr [] \/ word = ABytes [].
Proof.
  intros word. split.
  - destruct word as [z|v|x|s|w]; simpl; intros E.
    + now apply str_int_nonempty in E.
    + destruct v; discriminate.
    + now apply float_str_nonempty in E.
    + left. now subst.
    + right. now subst.
  - intros [E|E]; subst; reflexivity.
Qed.






(** ** The token parser *)

Lemma py_int_outcome : forall s : text,
    (exists z, py_int s = Return z) \/ py_int s = Raise ValueError.
Proof.
  intros [|c s]; simpl; [now right|].
  destruct (is_digit c && all_digits s); eauto.
Qed.

Lemma py_float_outcome : forall s : text,
    (exists x, py_float s = Return x) \/ py_float s = Raise ValueError.
Proof.
  intros s. unfold py_float.
  destruct (split_at_period s) as [whole fraction].
  destruct (whole ++ _); [now right|].
  destruct (all_digits whole && all_digits _); eauto.
Qed.

Lemma convert_token_value : forall token : text,
    convert_token token = Return (token_value token).
Proof.
  intros token. unfold convert_token, token_value.
  destruct (py_int_outcome (re_sub token)) as [[z Ez]|Ez]; rewrite Ez; simpl;
    [reflexivity|].
  destruct (py_float_outcome (re_sub token)) as [[x Ex]|Ex]; rewrite Ex;
    reflexivity.
Qed.

Lemma convert_tokens_values : forall tokens output_val,
    convert_tokens tokens output_val
    = Return (output_val ++ map token_value tokens).
Proof.
  induction tokens as [|token tokens IH]; intros output_val; simpl.
  - now rewrite app_nil_r.
  - rewrite convert_token_value. simpl. rewrite IH.
    now rewrite <- app_assoc.
Qed.

Lemma parse_line_values : forall line : bytes,
    parse_line line
    = if utf8_valid line
      then Return (collapse (map token_value (re_split (strip line))))
      else Raise UnicodeDecodeError.
Proof.
  intros line. unfold parse_line, decode.
  destruct (utf8_valid line); simpl; [|reflexivity].
  now rewrite convert_tokens_values.
Qed.

(** *** Splitting *)

Lemma re_split_nonempty : forall s : text, re_split s <> [].
Proof.
  induction s as [|c s IH]; simpl; [discriminate|].
  destruct (is_delimiter c).
  - destruct (starts_with_delimiter s); [assumption | discriminate].
  - destruct (re_split s); discriminate.
Qed.

Lemma re_split_plain : forall s : text,
    no_delimiter s = true -> re_split s = [s].
Proof.
  induction s as [|c s IH]; simpl; intros H; [reflexivity|].
  apply andb_true_iff in H. destruct H as [Hc Hs].
  destruct (is_delimiter c); [discriminate|].
  now rewrite (IH Hs).
Qed.

Lemma re_split_run : forall run rest : text,
    run <> [] ->
    forallb is_delimiter run = true ->
    starts_with_delimiter rest = false ->
    re_split (run ++ rest) = [] :: re_split rest.
Proof.
  induction run as [|c run IH]; intros rest Hne Hrun Hrest; [congruence|].
  simpl in Hrun. apply andb_true_iff in Hrun. destruct Hrun as [Hc Hrun].
  simpl. rewrite Hc.
  destruct run as [|c' run'].
  - simpl. now rewrite Hrest.
  - assert (E : starts_with_delimiter ((c' :: run') ++ rest) = true).
    { simpl in Hrun |- *. now apply andb_true_iff in Hrun. }
    rewrite E. apply IH; [discriminate | assumption | assumption].
Qed.

Lemma re_split_merge : forall u run rest : text,
    no_delimiter u = true ->
    run <> [] ->
    forallb is_delimiter run = true ->
    starts_with_delimiter rest = false ->
    re_split (u ++ run ++ rest) = u :: re_split rest.
Proof.
  induction u as [|c u IH]; intros run rest Hu Hne Hrun Hrest.
  - simpl. now apply re_split_run.
  - simpl in Hu. apply andb_true_iff in Hu. destruct Hu as [Hc Hu].
    simpl. destruct (is_delimiter c); [discriminate|].
    now rewrite (IH run rest Hu Hne Hrun Hrest).
Qed.

Lemma re_split_single : forall s t : text,
    re_split s = [t] -> no_delimiter s = true.
Proof.
  induction s as [|c s IH]; intros t H; [reflexivity|].
  simpl in H |- *. destruct (is_delimiter c) eqn:Ec.
  - exfalso. destruct (starts_with_delimiter s) eqn:Es.
    + apply IH in H. destruct s as [|c' s']; [discriminate|].
      simpl in Es, H. rewrite Es in H. discriminate.
    + injection H as _ H. now apply re_split_nonempty in H.
  - simpl. destruct (re_split s) as [|t' ts] eqn:E.
    + now apply re_split_nonempty in E.
    + injection H as _ H. subst ts. now apply (IH t').
Qed.

Lemma re_split_tokens_plain : forall s : text,
    Forall (fun token => no_delimiter token = true) (re_split s).
Proof.
  induction s as [|c s IH]; simpl; [now repeat constructor|].
  destruct (is_delimiter c) eqn:Ec.
  - destruct (starts_with_delimiter s); [assumption | now constructor].
  - destruct (re_split s) as [|t ts]; [now repeat constructor; simpl; rewrite Ec|].
    inversion IH; subst. constructor; [|assumption].
    simpl. now rewrite Ec.
Qed.

Lemma re_split_first_empty : forall s : text,
    hd [] (re_split s) = [] <-> s = [] \/ starts_with_delimiter s = true.
Proof.
  induction s as [|c s IH]; simpl; [tauto|].
  destruct (is_delimiter c) eqn:Ec.
  - split; [now right|]. intros _.
    destruct (starts_with_delimiter s) eqn:Es; [|reflexivity].
    apply IH. now right.
  - destruct (re_split s); simpl; split; intros H;
      solve [discriminate | destruct H; discriminate].
Qed.

Lemma re_split_inner_nonempty : forall s : text,
    Forall (fun token => token <> []) (removelast (tl (re_split s))).
Proof.
  induction s as [|c s IH]; simpl; [constructor|].
  destruct (is_delimiter c) eqn:Ec.
  - destruct (starts_with_delimiter s) eqn:Es; [assumption|].
    simpl tl. destruct (re_split s) as [|t ts] eqn:E; [constructor|].
    destruct ts as [|t' ts']; [constructor|].
    change (removelast (t :: t' :: ts')) with (t :: removelast (t' :: ts')).
    constructor; [|exact IH].
    intros Et. subst t.
    assert (H : hd [] (re_split s) = []) by now rewrite E.
    apply re_split_first_empty in H. destruct H as [H|H].
    + subst s. discriminate.
    + congruence.
  - destruct (re_split s) as [|t ts]; [constructor | exact IH].
Qed.

Lemma last_byte_cons : forall (c : byte) (s : text),
    s <> [] -> last_byte (c :: s) = last_byte s.
Proof. intros c [|c' s] H; [congruence | reflexivity]. Qed.

Lemma ends_with_delimiter_cons : forall (c : byte) (s : text),
    s <> [] -> ends_with_delimiter (c :: s) = ends_with_delimiter s.
Proof. intros. unfold ends_with_delimiter. now rewrite last_byte_cons. Qed.

Lemma no_delimiter_end : forall s : text,
    no_delimiter s = true -> ends_with_delimiter s = false.
Proof.
  induction s as [|c s IH]; intros H; [reflexivity|].
  simpl in H. apply andb_true_iff in H. destruct H as [Hc Hs].
  destruct s as [|c' s'].
  - unfold ends_with_delimiter. simpl. now destruct (is_delimiter c).
  - rewrite ends_with_delimiter_cons by discriminate. now apply IH.
Qed.

Lemma last_cons : forall (t : text) (ts : list text),
    ts <> [] -> last (t :: ts) [] = last ts [].
Proof. intros t [|t' ts] H; [congruence | reflexivity]. Qed.

Lemma re_split_last_empty : forall s : text,
    last (re_split s) [] = [] <-> s = [] \/ ends_with_delimiter s = true.
Proof.
  induction s as [|c s IH]; [simpl; tauto|].
  cbn [re_split]. destruct (is_delimiter c) eqn:Ec.
  - destruct s as [|c' s'].
    + simpl. unfold ends_with_delimiter. simpl. rewrite Ec. tauto.
    + rewrite ends_with_delimiter_cons by discriminate.
      assert (E : last (if starts_with_delimiter (c' :: s')
                        then re_split (c' :: s')
                        else [] :: re_split (c' :: s')) []
                  = last (re_split (c' :: s')) []).
      { destruct (starts_with_delimiter (c' :: s')); [reflexivity|].
        apply last_cons, re_split_nonempty. }
      rewrite E, IH. split; intros [H|H]; try discriminate; now right.
  - destruct (re_split s) as [|t ts] eqn:E; [now apply re_split_nonempty in E|].
    destruct ts as [|t' ts'].
    + apply re_split_single in E.
      assert (Hc : no_delimiter (c :: s) = true) by (simpl; now rewrite Ec).
      apply no_delimiter_end in Hc. rewrite Hc. simpl.
      split; [discriminate | intros [H|H]; discriminate].
    + rewrite last_cons by discriminate.
      rewrite last_cons in IH by discriminate.
      destruct s as [|c' s']; [discriminate|].
      rewrite ends_with_delimiter_cons by discriminate.
      rewrite IH. split; intros [H|H]; try discriminate; now right.
Qed.

(** *** Digits *)

Lemma digit_is_plain : forall c : byte,
    is_digit c = true ->
    is_delimiter c = false /\ kept c = true /\ is_ascii_space c = false /\
    byte_in 0 127 c = true.
Proof.
  intros c H. destruct c; vm_compute in H; try discriminate H;
    repeat split; reflexivity.
Qed.

Lemma space_width_digit : forall (c : byte) (s : text),
    is_digit c = true -> space_width (c :: s) = 0%nat.
Proof.
  intros c s H. destruct c; vm_compute in H; try discriminate H;
    destruct s as [|c1 [|c2 s]]; reflexivity.
Qed.

Lemma space_width_rev_digit : forall (c : byte) (s : text),
    is_digit c = true -> space_width_rev (c :: s) = 0%nat.
Proof.
  intros c s H. destruct c; vm_compute in H; try discriminate H;
    destruct s as [|y [|x s]]; try reflexivity;
      unfold space_width_rev, space_width; cbn;
      rewrite ?andb_false_r; cbn;
      destruct (is_ascii_space y); try reflexivity;
      destruct (is_ascii_space x); try reflexivity;
      destruct (is_byte 194 x && (is_byte 133 y || is_byte 160 y)); reflexivity.
Qed.

Lemma all_digits_ascii : forall ds : text,
    all_digits ds = true -> forallb (byte_in 0 127) ds = true.
Proof.
  induction ds as [|c ds IH]; simpl; intros H; [reflexivity|].
  apply andb_true_iff in H. destruct H as [Hc Hds].
  rewrite (IH Hds). now destruct (digit_is_plain c Hc) as (_ & _ & _ & ->).
Qed.

Lemma utf8_valid_ascii : forall l : bytes,
    forallb (byte_in 0 127) l = true -> utf8_valid l = true.
Proof.
  induction l as [|c l IH]; simpl; intros H; [reflexivity|].
  apply andb_true_iff in H. destruct H as [Hc Hl].
  rewrite Hc. now apply IH.
Qed.

Lemma all_digits_plain : forall ds : text,
    all_digits ds = true -> no_delimiter ds = true.
Proof.
  induction ds as [|c ds IH]; simpl; intros H; [reflexivity|].
  apply andb_true_iff in H. destruct H as [Hc Hds].
  rewrite (IH Hds). now destruct (digit_is_plain c Hc) as (-> & _).
Qed.

Lemma all_digits_kept : forall ds : text,
    all_digits ds = true -> re_sub ds = ds.
Proof.
  induction ds as [|c ds IH]; simpl; intros H; [reflexivity|].
  apply andb_true_iff in H. destruct H as [Hc Hds].
  destruct (digit_is_plain c Hc) as (_ & -> & _).
  now rewrite (IH Hds).
Qed.

Lemma all_digits_rev : forall ds : text,
    all_digits ds = true -> all_digits (rev ds) = true.
Proof.
  intros ds H. unfold all_digits in *. rewrite forallb_forall in *.
  intros c Hc. apply H. now apply in_rev.
Qed.

Lemma lstrip_digits : forall (ds tail : text),
    ds <> [] -> all_digits ds = true -> lstrip (ds ++ tail) = ds ++ tail.
Proof.
  intros [|c ds] tail Hne H; [congruence|].
  simpl in H. apply andb_true_iff in H. destruct H as [Hc _].
  unfold lstrip. simpl. fold (space_width (c :: ds ++ tail)).
  now rewrite space_width_digit.
Qed.

Lemma strip_front_rev_digits : forall (ds : text) (fuel : nat),
    all_digits ds = true -> strip_front space_width_rev fuel ds = ds.
Proof.
  intros [|c ds] [|fuel] H; try reflexivity.
  simpl in H. apply andb_true_iff in H. destruct H as [Hc _].
  cbn [strip_front]. now rewrite space_width_rev_digit.
Qed.

Lemma rstrip_digits : forall ds : text,
    all_digits ds = true -> rstrip ds = ds.
Proof.
  intros ds H. unfold rstrip.
  rewrite strip_front_rev_digits by now apply all_digits_rev.
  apply rev_involutive.
Qed.

Lemma rstrip_digits_newline : forall ds : text,
    all_digits ds = true -> rstrip (ds ++ [LF]) = ds.
Proof.
  intros ds H. unfold rstrip.
  rewrite rev_app_distr, length_app, Nat.add_comm. simpl rev. simpl length.
  cbn [strip_front app]. change (space_width_rev (LF :: rev ds)) with 1%nat.
  cbn [skipn]. rewrite strip_front_rev_digits by now apply all_digits_rev.
  apply rev_involutive.
Qed.

Lemma strip_digits : forall ds : text,
    ds <> [] -> all_digits ds = true ->
    strip ds = ds /\ strip (ds ++ [LF]) = ds.
Proof.
  intros ds Hne H. unfold strip. split.
  - rewrite <- (app_nil_r ds) at 1. rewrite lstrip_digits by assumption.
    rewrite app_nil_r. now apply rstrip_digits.
  - rewrite lstrip_digits by assumption. now apply rstrip_digits_newline.
Qed.

Lemma token_value_digits : forall ds : text,
    ds <> [] -> all_digits ds = true -> token_value ds = PInt (digits_value ds).
Proof.
  intros ds Hne H. unfold token_value. rewrite (all_digits_kept ds H).
  destruct ds as [|c ds]; [congruence|].
  unfold py_int. now rewrite H.
Qed.

Lemma parse_line_digits : forall ds : text,
    ds <> [] -> all_digits ds = true ->
    parse_line ds = Return (PInt (digits_value ds)) /\
    parse_line (ds ++ [LF]) = Return (PInt (digits_value ds)).
Proof.
  intros ds Hne H.
  destruct (strip_digits Hne H) as [E1 E2].
  rewrite !parse_line_values, E1, E2.
  rewrite !utf8_valid_ascii.
  - rewrite re_split_plain by now apply all_digits_plain.
    simpl. now rewrite token_value_digits.
  - rewrite forallb_app, all_digits_ascii by assumption. reflexivity.
  - now apply all_digits_ascii.
Qed.

(** C5.  The value [parse_line] returns is the collapse of the typed values
    of the tokens, taken in order: none gives [None], one gives that value
    itself, two or more give the list.  A line that is one run of digits
    parses to the bare integer, and ["5.0,1.2"] to the list [[5.0, 1.2]]. *)
Theorem parse_line_collapse :
  forall (line : bytes) (r : pyval) (ds : text),
    (parse_line line = Return r ->
     exists values : list pyval,
       Forall2 (fun token v => convert_token token = Return v)
               (re_split (strip line)) values /\
       r = collapse values /\
       (values = [] -> r = PNone) /\
       (forall v, values = [v] -> r = v) /\
       ((2 <= length values)%nat -> r = PList values)) /\
    (ds <> [] -> all_digits ds = true -> (length ds <= 4300)%nat ->
     parse_line ds = Return (PInt (digits_value ds)) /\
     parse_line (ds ++ [LF]) = Return (PInt (digits_value ds))) /\
    parse_line (b "5.0,1.2")
    = Return (PList [PFloat 5; PFloat 1.2]).
Proof.
  intros line r ds. split; [|split].
  - rewrite parse_line_values.
    destruct (utf8_valid line); [|discriminate].
    intros H. injection H as <-.
    exists (map token_value (re_split (strip line))).
    split.
    { induction (re_split (strip line)) as [|token tokens IH]; simpl;
        constructor; [apply convert_token_value | exact IH]. }
    split; [reflexivity|].
    destruct (map token_value (re_split (strip line))) as [|v [|w l]];
      simpl; repeat split; try reflexivity; try discriminate;
      try (intros; lia).
    intros v' E. now injection E.
  - intros Hne H _. now apply parse_line_digits.
  - vm_compute. reflexivity.
Qed.

Lemma parse_line_collapse_witness :
  parse_line (b "42" ++ [LF]) = Return (PInt 42) /\
  b "42" <> [] /\ all_digits (b "42") = true /\ (length (b "42") <= 4300)%nat /\
  exists values : list pyval,
    Forall2 (fun token v => convert_token token = Return v)
            (re_split (strip (b "42" ++ [LF]))) values /\
    PInt 42 = collapse values.
Proof.
  assert (Hline : parse_line (b "42" ++ [LF]) = Return (PInt 42))
    by (vm_compute; reflexivity).
  assert (Hne : b "42" <> []) by discriminate.
  assert (Hds : all_digits (b "42") = true) by reflexivity.
  assert (Hlen : (length (b "42") <= 4300)%nat) by (vm_compute; lia).
  split; [exact Hline|].
  split; [exact Hne|].
  split; [exact Hds|].
  split; [exact Hlen|].
  destruct (parse_line_collapse (b "42" ++ [LF]) (PInt 42) (b "42"))
    as [Hcollapse [Hdigits _]].
  destruct (Hdigits Hne Hds Hlen) as [_ _].
  destruct (Hcollapse Hline) as (values & Htokens & Hr & _).
  exists values. split; assumption.
Defined.

(** C6, as amended.  A run of adjacent delimiters is one split point, no
    token holds a delimiter, and no token between the first and the last
    is empty.  The first token is empty exactly when the text is empty or
    begins with a delimiter, the last exactly when the text is empty or
    ends with one: those empty tokens are kept. *)
Theorem re_split_empty_tokens :
  forall (s u run rest : text),
    no_delimiter u = true ->
    run <> [] ->
    forallb is_delimiter run = true ->
    starts_with_delimiter rest = false ->
    re_split (u ++ run ++ rest) = u :: re_split rest /\
    re_split u = [u] /\
    Forall (fun token => no_delimiter token = true) (re_split s) /\
    Forall (fun token => token <> []) (removelast (tl (re_split s))) /\
    (hd [] (re_split s) = [] <-> s = [] \/ starts_with_delimiter s = true) /\
    (last (re_split s) [] = [] <-> s = [] \/ ends_with_delimiter s = true).
Proof.
  intros s u run rest Hu Hne Hrun Hrest.
  split; [now apply re_split_merge|].
  split; [now apply re_split_plain|].
  split; [apply re_split_tokens_plain|].
  split; [apply re_split_inner_nonempty|].
  split; [apply re_split_first_empty | apply re_split_last_empty].
Qed.

Lemma re_split_empty_tokens_witness :
  re_split (b "5.0" ++ b ", ;" ++ b "1.2") = [b "5.0"; b "1.2"] /\
  last (re_split (b "ON;")) [] = [].
Proof.
  destruct (@re_split_empty_tokens (b "ON;") (b "5.0") (b ", ;") (b "1.2"))
    as (Hmerge & _ & _ & _ & _ & Hlast);
    [reflexivity | discriminate | reflexivity | reflexivity |].
  split.
  - exact Hmerge.
  - apply Hlast. right. reflexivity.
Defined.

(** C6 as stated fails on the code: the reply ["ON;\n"] ends, once
    stripped, with a delimiter, and the split keeps the empty token after
    it, so the line parses to a list of two values. *)
Lemma re_split_keeps_trailing_empty_token :
  re_split (strip (b "ON;" ++ [LF])) = [b "ON"; []] /\
  In [] (re_split (strip (b "ON;" ++ [LF]))) /\
  parse_line (b "ON;" ++ [LF]) = Return (PList [PStr (b "ON"); PStr []]).
Proof.
  split; [vm_compute; reflexivity|].
  split; [right; left; reflexivity | vm_compute; reflexivity].
Qed.

(** C7.  Converting a token never raises.  When the sanitised token is
    neither an integer nor a real, the value is the token's own text,
    unsanitised; ["ON"] stays ["ON"].  A line that decodes always parses. *)
Theorem convert_token_fallback :
  forall (token : text) (line : bytes),
    (exists v, convert_token token = Return v) /\
    ((forall z, py_int (re_sub token) <> Return z) ->
     (forall x, py_float (re_sub token) <> Return x) ->
     convert_token token = Return (PStr token)) /\
    (utf8_valid line = true -> exists v, parse_line line = Return v) /\
    convert_token (b "ON") = Return (PStr (b "ON")) /\
    parse_line (b "ON") = Return (PStr (b "ON")).
Proof.
  intros token line.
  split; [rewrite convert_token_value; eauto|].
  split.
  { intros Hint Hfloat. rewrite convert_token_value. unfold token_value.
    destruct (py_int (re_sub token)) as [z| |];
      [now destruct (Hint z)| |];
      (destruct (py_float (re_sub token)) as [x| |];
       [now destruct (Hfloat x)|reflexivity|reflexivity]). }
  split.
  { intros H. rewrite parse_line_values, H. eauto. }
  split; vm_compute; reflexivity.
Qed.

Lemma convert_token_fallback_witness :
  (forall z, py_int (re_sub (b "OFF")) <> Return z) /\
  (forall x, py_float (re_sub (b "OFF")) <> Return x) /\
  utf8_valid (b "1.2.3" ++ [LF]) = true /\
  convert_token (b "OFF") = Return (PStr (b "OFF")) /\
  exists v, parse_line (b "1.2.3" ++ [LF]) = Return v.
Proof.
  assert (Hint : forall z, py_int (re_sub (b "OFF")) <> Return z)
    by (intros z; vm_compute; discriminate).
  assert (Hfloat : forall x, py_float (re_sub (b "OFF")) <> Return x)
    by (intros x; vm_compute; discriminate).
  assert (Hline : utf8_valid (b "1.2.3" ++ [LF]) = true) by reflexivity.
  destruct (convert_token_fallback (b "OFF") (b "1.2.3" ++ [LF]))
    as (_ & Hfallback & Hparse & _).
  split; [exact Hint|].
  split; [exact Hfloat|].
  split; [exact Hline|].
  split; [exact (Hfallback Hint Hfloat) | exact (Hparse Hline)].
Defined.

(** ** The session *)

Arguments await_response : simpl never.

Lemma prepare_line_to_send_newline : forall args line,
    prepare_line_to_send args = Return line ->
    exists body, line = body ++ [LF].
Proof.
  unfold prepare_line_to_send. intros args line H.
  destruct (fill_output_buffer 0 args []) as [buffer| |]; simpl in H;
    try discriminate.
  destruct buffer as [|w buffer]; [discriminate|].
  injection H as <-. rewrite concat_app. simpl. eauto.
Qed.

Lemma prepare_line_to_send_nonempty : forall args line,
    prepare_line_to_send args = Return line -> line <> [].
Proof.
  intros args line H. destruct (prepare_line_to_send_newline _ H) as [body ->].
  now destruct body.
Qed.

Lemma command_sends : forall fuel args t s line,
    link s = None ->
    prepare_line_to_send args = Return line ->
    command (S fuel) args t s
    = (let! response := await_response (S fuel) [] in
       finish (timeout s) response)%session
        (awaiting s t line (transcript s)).
Proof.
  intros fuel args t [t0 e ow iw w tr l] line Hl Hline. simpl in Hl. subst l.
  unfold command, write_line, bind at 1 2 3 4 5 6 7, get_timeout, set_timeout,
    flush, sleep, read_all, transport, ret.
  cbn. unfold lift. rewrite Hline. cbn. reflexivity.
Qed.

Lemma await_response_echo : forall fuel t e w l lines,
    contains e l = true ->
    await_response (S fuel) [] (mkScpy t (Some e) 0 [] w (l :: lines) None)
    = await_response fuel [] (mkScpy t (Some e) 0 [] w lines None).
Proof.
  intros fuel t e w l lines H.
  unfold await_response at 1; fold await_response.
  unfold bind, readline, transport, get_echo_of_the_command. cbn.
  now rewrite H.
Qed.

Lemma await_response_accept : forall fuel t e w l lines v,
    contains e l = false ->
    parse_line l = Return v ->
    await_response (S (S fuel)) [] (mkScpy t (Some e) 0 [] w (l :: lines) None)
    = (Return (if is_empty_str v then [] else [v]),
       mkScpy t (Some e) 0 [] w lines None).
Proof.
  intros fuel t e w l lines v He Hv.
  unfold await_response at 1; fold await_response.
  unfold bind, readline, transport, get_echo_of_the_command, lift. cbn.
  rewrite He, Hv. cbn. rewrite orb_false_r.
  destruct (is_empty_str v) eqn:Ev.
  - destruct v as [| | |[|c s]|]; try discriminate. reflexivity.
  - unfold await_response. destruct v as [| | |[|c s]|]; try discriminate;
      reflexivity.
Qed.

Lemma await_response_silence : forall fuel t e w,
    e <> [] ->
    await_response (S fuel) [] (mkScpy t (Some e) 0 [] w [] None)
    = (Return [], mkScpy t (Some e) 0 [] w [] None).
Proof.
  intros fuel t e w He.
  unfold await_response at 1; fold await_response.
  unfold bind, readline, transport, get_echo_of_the_command, lift. cbn.
  rewrite (contains_nil He).
  change (parse_line []) with (Return (PStr [])). reflexivity.
Qed.

Lemma await_response_skip : forall echoes fuel t e w lines,
    Forall (fun l => contains e l = true) echoes ->
    await_response (length echoes + fuel) [] (mkScpy t (Some e) 0 [] w (echoes ++ lines) None)
    = await_response fuel [] (mkScpy t (Some e) 0 [] w lines None).
Proof.
  induction echoes as [|l echoes IH]; intros fuel t e w lines H; [reflexivity|].
  inversion H as [|? ? Hl Hrest]; subst.
  simpl length. simpl app. simpl Nat.add.
  rewrite await_response_echo by assumption. now apply IH.
Qed.

Lemma finish_state : forall tmp_timeout response t e w lines,
    finish tmp_timeout response (mkScpy t e 0 [] w lines None)
    = (Return (collapse response), mkScpy tmp_timeout None 0 [] w lines None).
Proof. reflexivity. Qed.

Lemma command_exchange :
  forall fuel args t s line echoes reply rest v,
    link s = None ->
    prepare_line_to_send args = Return line ->
    Forall (fun l => contains line l = true) echoes ->
    contains line reply = false ->
    parse_line reply = Return v ->
    transcript s = echoes ++ reply :: rest ->
    (length echoes + 2 <= fuel)%nat ->
    command fuel args t s
    = (Return (if is_empty_str v then PNone else v), after_command s line rest).
Proof.
  intros fuel args t s line echoes reply rest v Hl Hline He Hr Hv Htr Hfuel.
  destruct fuel as [|fuel]; [lia|].
  rewrite (command_sends fuel args t s Hl Hline).
  unfold awaiting, after_command. rewrite Htr, Hl. unfold bind.
  replace (S fuel) with (length echoes + (S (S (fuel - length echoes - 1))))%nat
    by lia.
  rewrite await_response_skip by assumption.
  rewrite (@await_response_accept _ t line (wire s ++ line) reply rest v Hr Hv),
    finish_state.
  now destruct (is_empty_str v).
Qed.

Lemma command_silence :
  forall fuel args t s line echoes,
    link s = None ->
    prepare_line_to_send args = Return line ->
    Forall (fun l => contains line l = true) echoes ->
    transcript s = echoes ->
    (length echoes + 1 <= fuel)%nat ->
    command fuel args t s = (Return PNone, after_command s line []).
Proof.
  intros fuel args t s line echoes Hl Hline He Htr Hfuel.
  destruct fuel as [|fuel]; [lia|].
  rewrite (command_sends fuel args t s Hl Hline).
  unfold awaiting, after_command. rewrite Htr, Hl. unfold bind.
  replace (S fuel) with (length echoes + (S (fuel - length echoes)))%nat by lia.
  pose proof (@await_response_skip echoes (S (fuel - length echoes)) t line
                (wire s ++ line) [] He) as Hskip.
  rewrite app_nil_r in Hskip. rewrite Hskip.
  rewrite await_response_silence by (eapply prepare_line_to_send_nonempty; eassumption).
  now rewrite finish_state.
Qed.

(** C1.  The response is awaited with the line just written as the echo
    marker.  A received line that contains the marker as a contiguous run is
    dropped and the next line is read: with such lines ahead of it a
    transcript gives the call the outcome it has without them.  When the first line is the
    transmitted command and the second is a reply without the marker, the
    call returns the parsed value of the second line ([None] when that value
    is the empty text). *)
Theorem command_discards_echo :
  forall (fuel : nat) (args : list Argument) (t : Q) (s : Scpy)
         (line : bytes) (echoes lines : list bytes)
         (reply : bytes) (rest : list bytes) (v : pyval),
    link s = None ->
    prepare_line_to_send args = Return line ->
    Forall (fun l => contains line l = true) echoes ->
    contains line reply = false ->
    parse_line reply = Return v ->
    command (S fuel) args t s
    = (let! response := await_response (S fuel) [] in
       finish (timeout s) response)%session
        (awaiting s t line (transcript s)) /\
    (forall l, contains line l = true <-> exists pre post, l = pre ++ line ++ post) /\
    command (length echoes + S fuel) args t (with_transcript s (echoes ++ lines))
    = command (S fuel) args t (with_transcript s lines) /\
    exists r : pyval,
      command (3 + fuel) args t (with_transcript s (line :: reply :: rest))
      = (Return r, after_command s line rest) /\
      (v <> PStr [] -> r = v) /\
      (v = PStr [] -> r = PNone).
Proof.
  intros fuel args t s line echoes lines reply rest v Hl Hline He Hr Hv.
  split; [|split; [|split]].
  - now apply command_sends.
  - intros l. apply contains_spec.
  - replace (length echoes + S fuel)%nat with (S (length echoes + fuel)) by lia.
    rewrite !(command_sends _ args t) with (line := line) by assumption.
    unfold awaiting, with_transcript, bind. cbn [timeout wire transcript link].
    rewrite Hl.
    replace (S (length echoes + fuel)) with (length echoes + S fuel)%nat by lia.
    now rewrite await_response_skip.
  - exists (if is_empty_str v then PNone else v). split.
    + rewrite (@command_exchange (3 + fuel) args t
                 (with_transcript s (line :: reply :: rest))
                 line [line] reply rest v); try assumption; try reflexivity.
      * constructor; [apply contains_refl | constructor].
      * simpl. lia.
    + destruct v as [| | |[|c w]|]; simpl; split; congruence.
Qed.

Lemma command_discards_echo_witness :
  let s := mkScpy 1 None 0 (b "stale") [] [] None in
  let line := b "APPL?" ++ [LF] in
  let reply := b "5.0,1.2" ++ [LF] in
  prepare_line_to_send [AStr (b "APPL?")] = Return line /\
  contains line reply = false /\
  command 3 [AStr (b "APPL?")] default_timeout (with_transcript s [line; reply])
  = (Return (PList [PFloat 5; PFloat 1.2]),
     after_command s line []).
Proof.
  intros s line reply.
  assert (Hline : prepare_line_to_send [AStr (b "APPL?")] = Return line)
    by (vm_compute; reflexivity).
  assert (Hr : contains line reply = false) by (vm_compute; reflexivity).
  assert (Hv : parse_line reply
               = Return (PList [PFloat 5; PFloat 1.2]))
    by (vm_compute; reflexivity).
  split; [exact Hline|].
  split; [exact Hr|].
  destruct (@command_discards_echo 0 [AStr (b "APPL?")] default_timeout s line
              [] [] reply [] _ eq_refl Hline (Forall_nil _) Hr Hv)
    as [_ [_ [_ [r [Hcommand [Hvalue _]]]]]].
  assert (E : r = PList [PFloat 5; PFloat 1.2])
    by (apply Hvalue; discriminate).
  rewrite E in Hcommand. exact Hcommand.
Defined.

(** C3, as amended.  ["MODEL123\n"] answers [command('*IDN?')] with the
    integer 123: sanitising the token leaves the digits [123], which parse
    as an integer, so the text of the token is not kept. *)
Theorem command_idn_model123 :
  forall (fuel : nat) (t : Q) (s : Scpy) (rest : list bytes),
    link s = None ->
    transcript s = (b "MODEL123" ++ [LF]) :: rest ->
    (2 <= fuel)%nat ->
    re_sub (b "MODEL123") = b "123" /\
    convert_token (b "MODEL123") = Return (PInt 123) /\
    command fuel [AStr (b "*IDN?")] t s
    = (Return (PInt 123), after_command s (b "*IDN?" ++ [LF]) rest).
Proof.
  intros fuel t s rest Hl Htr Hfuel.
  split; [reflexivity|].
  split; [vm_compute; reflexivity|].
  rewrite (@command_exchange fuel [AStr (b "*IDN?")] t s (b "*IDN?" ++ [LF])
             [] (b "MODEL123" ++ [LF]) rest (PInt 123));
    try assumption; try reflexivity; try constructor.
Qed.

Lemma command_idn_model123_witness :
  let s := mkScpy 1 None 0 [] [] [b "MODEL123" ++ [LF]] None in
  link s = None /\
  (2 <= 2)%nat /\
  command 2 [AStr (b "*IDN?")] default_timeout s
  = (Return (PInt 123), after_command s (b "*IDN?" ++ [LF]) []).
Proof.
  intros s.
  split; [reflexivity|].
  split; [apply le_n|].
  exact (proj2 (proj2 (@command_idn_model123 2 default_timeout s []
                         eq_refl eq_refl (le_n 2)))).
Defined.

(** C3 as stated fails on the code: the call returns the integer 123 and
    not the text ["MODEL123"]. *)
Lemma command_idn_model123_not_text :
  let s := mkScpy 1 None 0 [] [] [b "MODEL123" ++ [LF]] None in
  fst (command 2 [AStr (b "*IDN?")] default_timeout s) = Return (PInt 123) /\
  fst (command 2 [AStr (b "*IDN?")] default_timeout s)
  <> Return (PStr (b "MODEL123")).
Proof.
  intros s.
  assert (E : fst (command 2 [AStr (b "*IDN?")] default_timeout s)
              = Return (PInt 123)) by (vm_compute; reflexivity).
  split; [exact E|]. rewrite E. discriminate.
Qed.

(** C4.  The loop stops at the first line without the echo marker: that
    line is the last one taken from the transcript, and the call returns its
    parsed value or [None], never more than that one unit.  When the line
    parses to the empty text the value is dropped and the call returns
    [None] without reading on; a transcript that runs out (a read that
    times out) ends the call the same way. *)
Theorem command_one_line :
  forall (fuel : nat) (args : list Argument) (t : Q) (s : Scpy)
         (line : bytes) (echoes : list bytes)
         (reply : bytes) (rest : list bytes) (v : pyval),
    link s = None ->
    prepare_line_to_send args = Return line ->
    Forall (fun l => contains line l = true) echoes ->
    (contains line reply = false ->
     parse_line reply = Return v ->
     transcript s = echoes ++ reply :: rest ->
     (length echoes + 2 <= fuel)%nat ->
     exists r : pyval,
       command fuel args t s = (Return r, after_command s line rest) /\
       (r = v \/ r = PNone) /\
       (v = PStr [] -> r = PNone) /\
       transcript (after_command s line rest) = rest /\
       timeout (after_command s line rest) = timeout s) /\
    (transcript s = echoes ->
     (length echoes + 1 <= fuel)%nat ->
     command fuel args t s = (Return PNone, after_command s line [])) /\
    parse_line [LF] = Return (PStr []) /\
    parse_line [] = Return (PStr []).
Proof.
  intros fuel args t s line echoes reply rest v Hl Hline He.
  split; [|split; [|split; reflexivity]].
  - intros Hr Hv Htr Hfuel.
    exists (if is_empty_str v then PNone else v).
    split; [now apply command_exchange with (echoes := echoes) (reply := reply)|].
    split; [destruct (is_empty_str v); tauto|].
    split; [now intros ->|].
    split; reflexivity.
  - intros Htr Hfuel. now apply command_silence with (echoes := echoes).
Qed.

Lemma command_one_line_witness :
  let s := mkScpy 1 None 0 [] [] [] None in
  prepare_line_to_send [AStr (b ":OUTP?")] = Return (b ":OUTP?" ++ [LF]) /\
  contains (b ":OUTP?" ++ [LF]) [LF] = false /\
  command 3 [AStr (b ":OUTP?")] default_timeout
          (with_transcript s [b ":OUTP?" ++ [LF]; [LF]; b "ON" ++ [LF]])
  = (Return PNone, after_command s (b ":OUTP?" ++ [LF]) [b "ON" ++ [LF]]).
Proof.
  intros s.
  assert (Hline : prepare_line_to_send [AStr (b ":OUTP?")]
                  = Return (b ":OUTP?" ++ [LF])) by (vm_compute; reflexivity).
  assert (Hr : contains (b ":OUTP?" ++ [LF]) [LF] = false)
    by (vm_compute; reflexivity).
  split; [exact Hline|].
  split; [exact Hr|].
  destruct (@command_one_line 3 [AStr (b ":OUTP?")] default_timeout
              (with_transcript s [b ":OUTP?" ++ [LF]; [LF]; b "ON" ++ [LF]])
              (b ":OUTP?" ++ [LF]) [b ":OUTP?" ++ [LF]] [LF] [b "ON" ++ [LF]]
              (PStr []) eq_refl Hline
              (Forall_cons _ (contains_refl _) (Forall_nil _)))
    as [Haccept _].
  destruct (Haccept Hr eq_refl eq_refl (le_n 3)) as [r [Hcommand [_ [Hnone _]]]].
  rewrite (Hnone eq_refl) in Hcommand. exact Hcommand.
Defined.

(** *** What a call leaves unchanged *)

Section Frame.
Context {B : Type} (proj : Scpy -> B).

Lemma keeps_ret : forall (A : Type) (a : A), keeps proj (ret a).
Proof. intros A a s. reflexivity. Qed.

Lemma keeps_lift : forall (A : Type) (o : outcome A), keeps proj (lift o).
Proof. intros A o s. reflexivity. Qed.

Lemma keeps_bind : forall (A C : Type) (m : M A) (k : A -> M C),
    keeps proj m -> (forall a, keeps proj (k a)) -> keeps proj (bind m k).
Proof.
  intros A C m k Hm Hk s. unfold bind. specialize (Hm s).
  destruct (m s) as [[a|e|] s']; simpl in *; [|assumption|assumption].
  now rewrite Hk.
Qed.

Lemma keeps_bind_fails : forall (A C : Type) (m : M A) (k : A -> M C),
    keeps proj m -> fails m -> keeps proj (bind m k).
Proof.
  intros A C m k Hm Hf s. unfold bind. specialize (Hm s). specialize (Hf s).
  destruct (m s) as [[a|e|] s']; simpl in *; [|assumption|assumption].
  now destruct (Hf a).
Qed.

Lemma keeps_transport : forall (A : Type) (op : Scpy -> A * Scpy),
    (forall s, proj (snd (op s)) = proj s) ->
    (forall s n, proj (mkScpy (timeout s) (echo_of_the_command s)
                              (out_waiting s) (in_waiting s) (wire s)
                              (transcript s) n) = proj s) ->
    keeps proj (transport op).
Proof.
  intros A op Hop Hlink s. unfold transport.
  destruct (link s) as [[|n]|] eqn:El; [reflexivity| |].
  - specialize (Hop (mkScpy (timeout s) (echo_of_the_command s)
                            (out_waiting s) (in_waiting s) (wire s)
                            (transcript s) (Some n))).
    destruct (op _) as [a s']. simpl in *. now rewrite Hop.
  - specialize (Hop s). destruct (op s) as [a s']. assumption.
Qed.
End Frame.

Lemma fails_bind_l : forall (A C : Type) (m : M A) (k : A -> M C),
    fails m -> fails (bind m k).
Proof.
  intros A C m k Hf s v. unfold bind. specialize (Hf s).
  destruct (m s) as [[a|e|] s']; simpl in *; try discriminate.
  now destruct (Hf a).
Qed.

Lemma fails_bind_r : forall (A C : Type) (m : M A) (k : A -> M C),
    (forall a, fails (k a)) -> fails (bind m k).
Proof.
  intros A C m k Hk s v. unfold bind.
  destruct (m s) as [[a|e|] s']; simpl; try discriminate. apply Hk.
Qed.

Lemma restores_bind : forall (A C : Type) (tmp : Q) (m : M A) (k : A -> M C),
    keeps timeout m -> (forall a, restores tmp (k a)) -> restores tmp (bind m k).
Proof.
  intros A C tmp m k Hm Hk s. unfold bind. specialize (Hm s).
  destruct (m s) as [[a|e|] s']; simpl in *; [|assumption|assumption].
  rewrite Hk. now rewrite Hm.
Qed.

Lemma restores_finish : forall tmp response, restores tmp (finish tmp response).
Proof. intros tmp response s. reflexivity. Qed.

Lemma flush_keeps_timeout : keeps timeout flush.
Proof. apply keeps_transport; intros; reflexivity. Qed.

Lemma poll_keeps_timeout : keeps timeout poll_out_waiting.
Proof. apply keeps_transport; intros; reflexivity. Qed.

Lemma read_all_keeps_timeout : keeps timeout read_all.
Proof. apply keeps_transport; intros; reflexivity. Qed.

Lemma write_keeps_timeout : forall data, keeps timeout (write data).
Proof. intros data. apply keeps_transport; intros; reflexivity. Qed.

Lemma readline_keeps_timeout : keeps timeout readline.
Proof.
  apply keeps_transport; intros; try reflexivity.
  now destruct (transcript s).
Qed.

Lemma flush_keeps_wire : keeps wire flush.
Proof. apply keeps_transport; intros; reflexivity. Qed.

Lemma poll_keeps_wire : keeps wire poll_out_waiting.
Proof. apply keeps_transport; intros; reflexivity. Qed.

Lemma read_all_keeps_wire : keeps wire read_all.
Proof. apply keeps_transport; intros; reflexivity. Qed.

Lemma wait_out_waiting_keeps :
  forall (B : Type) (proj : Scpy -> B),
    keeps proj poll_out_waiting ->
    forall fuel, keeps proj (wait_out_waiting fuel).
Proof.
  intros B proj Hpoll. induction fuel as [|fuel IH]; simpl.
  - intros s. reflexivity.
  - apply keeps_bind; [assumption|].
    intros [|n]; [apply keeps_ret | exact IH].
Qed.

Lemma write_line_keeps_timeout : forall fuel args,
    keeps timeout (write_line fuel args).
Proof.
  intros fuel args. unfold write_line.
  apply keeps_bind; [apply keeps_lift|]. intros line.
  apply keeps_bind; [apply wait_out_waiting_keeps, poll_keeps_timeout|]. intros _.
  apply keeps_bind; [intros s; reflexivity|]. intros _.
  apply keeps_bind; [apply write_keeps_timeout|]. intros _.
  apply flush_keeps_timeout.
Qed.

Lemma await_response_keeps_timeout : forall fuel response,
    keeps timeout (await_response fuel response).
Proof.
  induction fuel as [|fuel IH]; intros response.
  - intros s. reflexivity.
  - unfold await_response; fold await_response.
    destruct response as [|v response]; [|apply keeps_ret].
    apply keeps_bind; [apply readline_keeps_timeout|]. intros line.
    apply keeps_bind; [intros s; reflexivity|]. intros [echo|];
      [|intros s; reflexivity].
    destruct (contains echo line); [apply IH|].
    apply keeps_bind; [apply keeps_lift|]. intros parsed.
    destruct (existsb is_empty_str ([] ++ [parsed])); [apply keeps_ret | apply IH].
Qed.

Lemma write_line_no_arguments : forall fuel s,
    write_line fuel [] s = (Raise IndexError, s).
Proof. reflexivity. Qed.

(** C2, as amended.  A call that returns, with a value or with [None],
    leaves the session's timeout as it was before the call.  A call that
    ends in any other way (an exception from the encoder, the transport or
    the decoding of a line) leaves the per-call timeout installed. *)
Theorem command_timeout :
  forall (fuel : nat) (args : list Argument) (t : Q) (s : Scpy),
    timeout (snd (command fuel args t s))
    = match fst (command fuel args t s) with
      | Return _ => timeout s
      | _ => t
      end.
Proof.
  intros fuel args t s.
  assert (H : restores (timeout s)
                (flush ;;
                 wait_out_waiting fuel ;;
                 sleep (1 # 4) ;;
                 let! _ := read_all in
                 write_line fuel args ;;
                 let! response := await_response fuel [] in
                 finish (timeout s) response)%session).
  { apply restores_bind; [apply flush_keeps_timeout|]. intros _.
    apply restores_bind; [apply wait_out_waiting_keeps, poll_keeps_timeout|].
    intros _.
    apply restores_bind; [apply keeps_ret|]. intros _.
    apply restores_bind; [apply read_all_keeps_timeout|]. intros _.
    apply restores_bind; [apply write_line_keeps_timeout|]. intros _.
    apply restores_bind; [apply await_response_keeps_timeout|]. intros response.
    apply restores_finish. }
  exact (H (mkScpy t (echo_of_the_command s) (out_waiting s) (in_waiting s)
                   (wire s) (transcript s) (link s))).
Qed.

(** C2 as stated fails on the code: the port fails at the first [readline]
    of the call, [SerialException] leaves [command], and the timeout stays at
    the per-call 2.5 s instead of going back to 1 s. *)
Lemma command_fault_keeps_call_timeout :
  let s := mkScpy 1 None 0 [] [] [] (Some 6%nat) in
  fst (command 3 [AStr (b "*IDN?")] default_timeout s) = Raise SerialException /\
  timeout (snd (command 3 [AStr (b "*IDN?")] default_timeout s)) = 5 # 2 /\
  timeout s = 1%Q /\
  ~ (timeout (snd (command 3 [AStr (b "*IDN?")] default_timeout s)) == timeout s)%Q.
Proof.
  intros s.
  assert (E : timeout (snd (command 3 [AStr (b "*IDN?")] default_timeout s)) = 5 # 2)
    by (vm_compute; reflexivity).
  split; [vm_compute; reflexivity|].
  split; [exact E|].
  split; [reflexivity|].
  rewrite E. simpl. intros H. discriminate H.
Qed.

(** C9.  With no argument at all the encoder raises ([IndexError], from
    popping the empty buffer) and returns no line; [write_line] raises before
    it writes, and [command] never returns and adds no byte to the wire. *)
Theorem prepare_line_to_send_no_arguments :
  prepare_line_to_send [] = Raise IndexError /\
  (forall (fuel : nat) (s : Scpy), write_line fuel [] s = (Raise IndexError, s)) /\
  (forall (fuel : nat) (t : Q) (s : Scpy),
      (forall v, fst (command fuel [] t s) <> Return v) /\
      wire (snd (command fuel [] t s)) = wire s).
Proof.
  split; [reflexivity|].
  split; [apply write_line_no_arguments|].
  intros fuel t s.
  assert (Hfails : forall (k : unit -> M pyval),
             fails (write_line fuel [] ;; k tt)%session).
  { intros k. apply fails_bind_l. intros s' v.
    rewrite write_line_no_arguments. discriminate. }
  assert (Hwire : forall (k : unit -> M pyval),
             keeps wire (write_line fuel [] ;; k tt)%session).
  { intros k. apply keeps_bind_fails.
    - intros s'. now rewrite write_line_no_arguments.
    - intros s' v. rewrite write_line_no_arguments. discriminate. }
  split.
  - intros v. unfold command.
    apply fails_bind_r. intros tmp.
    apply fails_bind_r. intros _.
    apply fails_bind_r. intros _.
    apply fails_bind_r. intros _.
    apply fails_bind_r. intros _.
    apply fails_bind_r. intros _.
    apply (Hfails (fun _ => _)).
  - change (wire s) with
        (wire (mkScpy t (echo_of_the_command s) (out_waiting s) (in_waiting s)
                      (wire s) (transcript s) (link s))).
    unfold command, bind at 1 2, get_timeout, set_timeout.
    apply keeps_bind; [apply flush_keeps_wire|]. intros _.
    apply keeps_bind; [apply wait_out_waiting_keeps, poll_keeps_wire|]. intros _.
    apply keeps_bind; [apply keeps_ret|]. intros _.
    apply keeps_bind; [apply read_all_keeps_wire|]. intros _.
    apply (Hwire (fun _ => _)).
Qed.

Lemma prepare_line_to_send_no_arguments_witness :
  prepare_line_to_send [] = Raise IndexError /\
  fst (command 3 [] default_timeout (mkScpy 1 None 0 [] [] [] None))
  = Raise IndexError /\
  wire (snd (command 3 [] default_timeout (mkScpy 1 None 0 [] [] [] None))) = [].
Proof.
  destruct prepare_line_to_send_no_arguments as [Hencoder [_ Hcommand]].
  split; [exact Hencoder|].
  split; [vm_compute; reflexivity|].
  exact (proj2 (Hcommand 3%nat default_timeout (mkScpy 1 None 0 [] [] [] None))).
Defined.

(** ** The other methods of the session *)

Arguments readlines : simpl never.

Lemma wait_out_waiting_drains : forall queued fuel t e iw w tr,
    (queued < fuel)%nat ->
    wait_out_waiting fuel (mkScpy t e queued iw w tr None)
    = (Return tt, mkScpy t e 0 iw w tr None).
Proof.
  induction queued as [|queued IH]; intros fuel t e iw w tr H;
    (destruct fuel as [|fuel]; [lia|]).
  - reflexivity.
  - cbn. unfold bind, poll_out_waiting, transport. cbn.
    apply IH. lia.
Qed.

Lemma write_line_sends : forall fuel args s line,
    link s = None ->
    (out_waiting s < fuel)%nat ->
    prepare_line_to_send args = Return line ->
    write_line fuel args s
    = (Return tt,
       mkScpy (timeout s) (Some line) 0 (in_waiting s) (wire s ++ line)
              (transcript s) None).
Proof.
  intros fuel args [t e ow iw w tr l] line Hl Hfuel Hline.
  simpl in Hl, Hfuel. subst l.
  unfold write_line, lift. unfold bind at 1. rewrite Hline.
  unfold bind at 1. rewrite wait_out_waiting_drains by assumption.
  reflexivity.
Qed.

Lemma write_line_raises : forall fuel args s e,
    prepare_line_to_send args = Raise e ->
    write_line fuel args s = (Raise e, s).
Proof.
  intros fuel args s e H. unfold write_line, lift, bind. now rewrite H.
Qed.

(** X1.  On a port that stays up, [write_line] either raises the error of
    the encoder and leaves the session as it was, or appends exactly the
    encoded line to the written bytes, records it as the echo marker and
    drains the output queue; it reads nothing and keeps the timeout. *)
Theorem write_line_effect :
  forall (fuel : nat) (args : list Argument) (s : Scpy),
    link s = None ->
    (out_waiting s < fuel)%nat ->
    (forall line,
        prepare_line_to_send args = Return line ->
        write_line fuel args s
        = (Return tt,
           mkScpy (timeout s) (Some line) 0 (in_waiting s) (wire s ++ line)
                  (transcript s) None)) /\
    (forall e,
        prepare_line_to_send args = Raise e ->
        write_line fuel args s = (Raise e, s)).
Proof.
  intros fuel args s Hl Hfuel. split.
  - intros line. now apply write_line_sends.
  - intros e. apply write_line_raises.
Qed.

Lemma write_line_effect_witness :
  write_line 4 [AStr (b ":VOLT"); AFloat 5]
             (mkScpy 1 None 3 (b "stale") (b "old") [b "x"] None)
  = (Return tt,
     mkScpy 1 (Some (b ":VOLT 5.0" ++ [LF])) 0 (b "stale")
            (b "old" ++ b ":VOLT 5.0" ++ [LF]) [b "x"] None).
Proof.
  exact (proj1 (@write_line_effect 4 [AStr (b ":VOLT"); AFloat 5]
                  (mkScpy 1 None 3 (b "stale") (b "old") [b "x"] None)
                  eq_refl (le_n 4))
               (b ":VOLT 5.0" ++ [LF]) eq_refl).
Defined.

Lemma readlines_collects : forall lines fuel acc t e w rest,
    Forall (fun l => l <> []) lines ->
    (length lines < fuel)%nat ->
    readlines fuel acc (mkScpy t e 0 [] w (lines ++ [] :: rest) None)
    = (Return (acc ++ lines), mkScpy t e 0 [] w rest None).
Proof.
  induction lines as [|l lines IH]; intros fuel acc t e w rest Hne Hfuel;
    (destruct fuel as [|fuel]; [simpl in Hfuel; lia|]).
  - unfold readlines, bind, readline, transport. cbn. now rewrite app_nil_r.
  - inversion Hne as [|? ? Hl Hrest]; subst.
    unfold readlines; fold readlines.
    unfold bind, readline, transport. cbn.
    destruct l as [|c l]; [congruence|].
    rewrite IH; [|assumption|simpl in Hfuel; lia].
    now rewrite <- app_assoc.
Qed.

Lemma readlines_exhausts : forall lines fuel acc t e w,
    Forall (fun l => l <> []) lines ->
    (length lines < fuel)%nat ->
    readlines fuel acc (mkScpy t e 0 [] w lines None)
    = (Return (acc ++ lines), mkScpy t e 0 [] w [] None).
Proof.
  induction lines as [|l lines IH]; intros fuel acc t e w Hne Hfuel;
    (destruct fuel as [|fuel]; [simpl in Hfuel; lia|]).
  - unfold readlines, bind, readline, transport. cbn. now rewrite app_nil_r.
  - inversion Hne as [|? ? Hl Hrest]; subst.
    unfold readlines; fold readlines.
    unfold bind, readline, transport. cbn.
    destruct l as [|c l]; [congruence|].
    rewrite IH; [|assumption|simpl in Hfuel; lia].
    now rewrite <- app_assoc.
Qed.

(** X2.  [raw_lines] returns every line read up to the first read that
    times out, in order and as received: echo lines are not filtered and
    nothing is decoded.  On return the timeout is back at its old value,
    the stale input is gone, and the echo marker is still the line sent. *)
Theorem raw_lines_collects :
  forall (fuel : nat) (args : list Argument) (t : Q) (s : Scpy)
         (line : bytes) (lines rest : list bytes),
    link s = None ->
    (out_waiting s < fuel)%nat ->
    prepare_line_to_send args = Return line ->
    Forall (fun l => l <> []) lines ->
    (length lines < fuel)%nat ->
    transcript s = lines ++ [] :: rest \/ (transcript s = lines /\ rest = []) ->
    raw_lines fuel args t s
    = (Return lines,
       mkScpy (timeout s) (Some line) 0 [] (wire s ++ line) rest None).
Proof.
  intros fuel args t [t0 e ow iw w tr l] line lines rest Hl Hq Hline Hne Hfuel Htr.
  simpl in Hl, Hq, Htr. subst l.
  unfold raw_lines, get_timeout, set_timeout, read_all, transport.
  unfold bind at 1 2 3. cbn [link timeout echo_of_the_command out_waiting
                             in_waiting wire transcript].
  unfold bind at 1.
  rewrite write_line_sends with (line := line) by (reflexivity || assumption).
  cbn.
  unfold bind at 1.
  destruct Htr as [->|[-> ->]].
  - now rewrite readlines_collects.
  - now rewrite readlines_exhausts.
Qed.

Lemma raw_lines_collects_witness :
  raw_lines 3 [AStr (b "*IDN?")] raw_lines_timeout
            (mkScpy 1 None 0 (b "stale") []
                    [b "*IDN?" ++ [LF]; [xff; LF]; []; b "late" ++ [LF]] None)
  = (Return [b "*IDN?" ++ [LF]; [xff; LF]],
     mkScpy 1 (Some (b "*IDN?" ++ [LF])) 0 [] (b "*IDN?" ++ [LF])
            [b "late" ++ [LF]] None).
Proof.
  apply (@raw_lines_collects 3 [AStr (b "*IDN?")] raw_lines_timeout
           (mkScpy 1 None 0 (b "stale") []
                   [b "*IDN?" ++ [LF]; [xff; LF]; []; b "late" ++ [LF]] None)
           (b "*IDN?" ++ [LF]) [b "*IDN?" ++ [LF]; [xff; LF]]
           [b "late" ++ [LF]]).
  - reflexivity.
  - apply le_S, le_S, le_n.
  - reflexivity.
  - repeat constructor; discriminate.
  - apply le_n.
  - left. reflexivity.
Defined.

Lemma await_response_undecodable : forall fuel t e w l lines,
    contains e l = false ->
    utf8_valid l = false ->
    await_response (S fuel) [] (mkScpy t (Some e) 0 [] w (l :: lines) None)
    = (Raise UnicodeDecodeError, mkScpy t (Some e) 0 [] w lines None).
Proof.
  intros fuel t e w l lines He Hl.
  unfold await_response at 1; fold await_response.
  unfold bind, readline, transport, get_echo_of_the_command, lift. cbn.
  now rewrite He, parse_line_values, Hl.
Qed.

(** X3.  A reply line that is not UTF-8 makes [command] raise
    [UnicodeDecodeError] as soon as it is read: the lines after it stay
    unread, the echo marker is not cleared and the per-call timeout stays
    installed. *)
Theorem command_undecodable_reply :
  forall (fuel : nat) (args : list Argument) (t : Q) (s : Scpy)
         (line : bytes) (echoes : list bytes) (reply : bytes) (rest : list bytes),
    link s = None ->
    prepare_line_to_send args = Return line ->
    Forall (fun l => contains line l = true) echoes ->
    contains line reply = false ->
    utf8_valid reply = false ->
    transcript s = echoes ++ reply :: rest ->
    (length echoes + 1 <= fuel)%nat ->
    command fuel args t s = (Raise UnicodeDecodeError, awaiting s t line rest).
Proof.
  intros fuel args t s line echoes reply rest Hl Hline He Hr Hv Htr Hfuel.
  destruct fuel as [|fuel]; [lia|].
  rewrite (command_sends fuel args t s Hl Hline).
  unfold awaiting. rewrite Htr, Hl. unfold bind.
  replace (S fuel) with (length echoes + (S (fuel - length echoes)))%nat by lia.
  rewrite await_response_skip by assumption.
  now rewrite await_response_undecodable.
Qed.

Lemma command_undecodable_reply_witness :
  command 1 [AStr (b ":MEAS:VOLT?")] default_timeout
          (mkScpy 1 None 0 [] [] [[xff; x35; LF]; b "5.0" ++ [LF]] None)
  = (Raise UnicodeDecodeError,
     mkScpy default_timeout (Some (b ":MEAS:VOLT?" ++ [LF])) 0 []
            (b ":MEAS:VOLT?" ++ [LF]) [b "5.0" ++ [LF]] None).
Proof.
  exact (@command_undecodable_reply 1 [AStr (b ":MEAS:VOLT?")] default_timeout
           (mkScpy 1 None 0 [] [] [[xff; x35; LF]; b "5.0" ++ [LF]] None)
           (b ":MEAS:VOLT?" ++ [LF]) [] [xff; x35; LF] [b "5.0" ++ [LF]]
           eq_refl eq_refl (Forall_nil _) eq_refl eq_refl eq_refl (le_n 1)).
Defined.

Lemma readline_keeps_wire : keeps wire readline.
Proof.
  apply keeps_transport; intros; try reflexivity.
  now destruct (transcript s).
Qed.

Lemma readline_keeps_in_waiting : keeps in_waiting readline.
Proof.
  apply keeps_transport; intros; try reflexivity.
  now destruct (transcript s).
Qed.

Lemma await_response_keeps :
  forall (B : Type) (proj : Scpy -> B),
    keeps proj readline ->
    forall fuel response, keeps proj (await_response fuel response).
Proof.
  intros B proj Hread. induction fuel as [|fuel IH]; intros response.
  - intros s. reflexivity.
  - unfold await_response; fold await_response.
    destruct response as [|v response]; [|apply keeps_ret].
    apply keeps_bind; [exact Hread|]. intros line.
    apply keeps_bind; [intros s; reflexivity|]. intros [echo|];
      [|intros s; reflexivity].
    destruct (contains echo line); [apply IH|].
    apply keeps_bind; [apply keeps_lift|]. intros parsed.
    destruct (existsb is_empty_str ([] ++ [parsed])); [apply keeps_ret | apply IH].
Qed.

Lemma finish_keeps :
  forall (B : Type) (proj : Scpy -> B) tmp response,
    (forall s t e,
        proj (mkScpy t e (out_waiting s) (in_waiting s) (wire s)
                     (transcript s) (link s)) = proj s) ->
    keeps proj (finish tmp response).
Proof.
  intros B proj tmp response H [t e ow iw w tr l].
  unfold finish, bind, set_echo_of_the_command, set_timeout, ret. cbn.
  apply (H (mkScpy t e ow iw w tr l)).
Qed.

Lemma command_wire :
  forall (fuel : nat) (args : list Argument) (t : Q) (s : Scpy) (line : bytes),
    link s = None ->
    prepare_line_to_send args = Return line ->
    (1 <= fuel)%nat ->
    wire (snd (command fuel args t s)) = wire s ++ line.
Proof.
  intros fuel args t s line Hl Hline Hfuel.
  destruct fuel as [|fuel]; [lia|].
  rewrite (command_sends fuel args t s Hl Hline).
  change (wire s ++ line) with (wire (awaiting s t line (transcript s))).
  apply keeps_bind.
  - apply await_response_keeps, readline_keeps_wire.
  - intros response. apply finish_keeps. reflexivity.
Qed.

(** X4.  On a port that stays up, a call of [command] whose words encode
    puts exactly the encoded line on the wire, once, and empties the
    receive buffer of stale input, whatever is read afterwards and however
    the call ends. *)
Theorem command_writes_once :
  forall (fuel : nat) (args : list Argument) (t : Q) (s : Scpy) (line : bytes),
    link s = None ->
    prepare_line_to_send args = Return line ->
    (1 <= fuel)%nat ->
    wire (snd (command fuel args t s)) = wire s ++ line /\
    in_waiting (snd (command fuel args t s)) = [].
Proof.
  intros fuel args t s line Hl Hline Hfuel.
  split; [now apply command_wire|].
  destruct fuel as [|fuel]; [lia|].
  rewrite (command_sends fuel args t s Hl Hline).
  change (@nil byte) with (in_waiting (awaiting s t line (transcript s))).
  apply keeps_bind.
  - apply await_response_keeps, readline_keeps_in_waiting.
  - intros response. apply finish_keeps. reflexivity.
Qed.

Lemma command_writes_once_witness :
  wire (snd (command 1 [AStr (b "*OPC?")] default_timeout
                     (mkScpy 1 None 2 (b "stale") (b "old") [[xff]] None)))
  = b "old" ++ b "*OPC?" ++ [LF] /\
  in_waiting (snd (command 1 [AStr (b "*OPC?")] default_timeout
                           (mkScpy 1 None 2 (b "stale") (b "old") [[xff]] None)))
  = [].
Proof.
  exact (@command_writes_once 1 [AStr (b "*OPC?")] default_timeout
           (mkScpy 1 None 2 (b "stale") (b "old") [[xff]] None)
           (b "*OPC?" ++ [LF]) eq_refl eq_refl (le_n 1)).
Defined.

(** ** The device facade *)

Lemma sets_nothing : forall s, link s = None -> sets (ret tt) s [].
Proof.
  intros s Hl. exists s. repeat split; try assumption.
  now rewrite app_nil_r.
Qed.

Lemma sets_write_line : forall fuel args s line,
    link s = None ->
    (out_waiting s < fuel)%nat ->
    prepare_line_to_send args = Return line ->
    sets (write_line fuel args) s line.
Proof.
  intros fuel args s line Hl Hq Hline.
  exists (mkScpy (timeout s) (Some line) 0 (in_waiting s) (wire s ++ line)
                 (transcript s) None).
  split; [now apply write_line_sends|]. repeat split.
Qed.

Lemma sets_optional : forall fuel mnemonic value s data,
    link s = None ->
    (out_waiting s < fuel)%nat ->
    set_line mnemonic value = Return data ->
    sets (match value with
          | Some value => write_line fuel [AStr mnemonic; value]
          | None => ret tt
          end) s data.
Proof.
  intros fuel mnemonic [value|] s data Hl Hq Hdata; simpl in Hdata.
  - now apply sets_write_line.
  - injection Hdata as <-. now apply sets_nothing.
Qed.

Lemma after_command_set : forall s s1 data line lines,
    link s = None ->
    link s1 = None ->
    timeout s1 = timeout s ->
    wire s1 = wire s ++ data ->
    after_command s1 line lines = after_command s (data ++ line) lines.
Proof.
  intros s s1 data line lines Hl Hl1 Ht Hw. unfold after_command.
  now rewrite Hl, Hl1, Ht, Hw, app_assoc.
Qed.

Lemma sets_then_exchange :
  forall setter fuel args t s data line echoes reply rest v,
    link s = None ->
    sets setter s data ->
    prepare_line_to_send args = Return line ->
    Forall (fun l => contains line l = true) echoes ->
    contains line reply = false ->
    parse_line reply = Return v ->
    transcript s = echoes ++ reply :: rest ->
    (length echoes + 2 <= fuel)%nat ->
    (setter ;; command fuel args t)%session s
    = (Return (reported v), after_command s (data ++ line) rest).
Proof.
  intros setter fuel args t s data line echoes reply rest v
         Hl [s1 (Hset & Hl1 & Ht & Hw & Htr1)] Hline He Hr Hv Htr Hfuel.
  unfold bind. rewrite Hset.
  rewrite (@command_exchange fuel args t s1 line echoes reply rest v);
    try assumption; [|congruence].
  now rewrite (@after_command_set s s1 data line rest Hl Hl1 Ht Hw).
Qed.

Lemma sets_then_silence :
  forall setter fuel args t s data line echoes,
    link s = None ->
    sets setter s data ->
    prepare_line_to_send args = Return line ->
    Forall (fun l => contains line l = true) echoes ->
    transcript s = echoes ->
    (length echoes + 1 <= fuel)%nat ->
    (setter ;; command fuel args t)%session s
    = (Return PNone, after_command s (data ++ line) []).
Proof.
  intros setter fuel args t s data line echoes
         Hl [s1 (Hset & Hl1 & Ht & Hw & Htr1)] Hline He Htr Hfuel.
  unfold bind. rewrite Hset.
  rewrite (@command_silence fuel args t s1 line echoes);
    try assumption; [|congruence].
  now rewrite (@after_command_set s s1 data line [] Hl Hl1 Ht Hw).
Qed.

Lemma sets_then_wire :
  forall setter fuel args t s data line,
    sets setter s data ->
    prepare_line_to_send args = Return line ->
    (1 <= fuel)%nat ->
    wire (snd ((setter ;; command fuel args t)%session s))
    = wire s ++ data ++ line.
Proof.
  intros setter fuel args t s data line
         [s1 (Hset & Hl1 & Ht & Hw & Htr1)] Hline Hfuel.
  unfold bind. rewrite Hset.
  rewrite (@command_wire fuel args t s1 line Hl1 Hline Hfuel).
  now rewrite Hw, app_assoc.
Qed.

Lemma bind_post : forall (A C : Type) (m : M A) (k : A -> M C) s a s',
    m s = (Return a, s') -> bind m k s = k a s'.
Proof. intros A C m k s a s' H. unfold bind. now rewrite H. Qed.

Lemma bytes_eqb_eq : forall x y : bytes, bytes_eqb x y = true <-> x = y.
Proof.
  induction x as [|c x IH]; intros [|d y]; simpl; split; intros H;
    try discriminate; try reflexivity.
  - apply andb_true_iff in H. destruct H as [Hc Hx].
    apply Byte.byte_dec_bl in Hc. apply IH in Hx. now subst.
  - injection H as -> ->. apply andb_true_iff. split.
    + now apply Byte.byte_dec_lb.
    + now apply IH.
Qed.

Lemma bind_assoc : forall (A C D : Type) (m : M A) (f : A -> M C) (k : C -> M D) s,
    bind m (fun a => bind (f a) k) s = bind (bind m f) k s.
Proof.
  intros A C D m f k s. unfold bind. now destruct (m s) as [[a|e|] s'].
Qed.

(** X5.  With a reply of two or more values, [apply_voltage] returns the
    first value and [apply_current] the second; a value that is given is
    written as one [:VOLT] or [:CURR] line ahead of the query [APPL?]. *)
Theorem apply_selects :
  forall (fuel : nat) (volts ampers : option Argument) (s : Scpy)
         (volts_line ampers_line : bytes) (echoes : list bytes)
         (reply : bytes) (rest : list bytes) (v0 v1 : pyval) (more : list pyval),
    link s = None ->
    (out_waiting s < fuel)%nat ->
    set_line (b ":VOLT") volts = Return volts_line ->
    set_line (b ":CURR") ampers = Return ampers_line ->
    Forall (fun l => contains (b "APPL?" ++ [LF]) l = true) echoes ->
    contains (b "APPL?" ++ [LF]) reply = false ->
    parse_line reply = Return (PList (v0 :: v1 :: more)) ->
    transcript s = echoes ++ reply :: rest ->
    (length echoes + 2 <= fuel)%nat ->
    apply_voltage fuel volts s
    = (Return v0, after_command s (volts_line ++ b "APPL?" ++ [LF]) rest) /\
    apply_current fuel ampers s
    = (Return v1, after_command s (ampers_line ++ b "APPL?" ++ [LF]) rest).
Proof.
  intros fuel volts ampers s volts_line ampers_line echoes reply rest v0 v1 more
         Hl Hq Hvolts Hampers He Hr Hv Htr Hfuel.
  split.
  - unfold apply_voltage. rewrite bind_assoc.
    rewrite (@bind_post _ _ _ _ _ _ _
               (@sets_then_exchange _ fuel [AStr (b "APPL?")] default_timeout s
                  volts_line (b "APPL?" ++ [LF]) echoes reply rest _ Hl
                  (@sets_optional fuel (b ":VOLT") volts s volts_line Hl Hq Hvolts)
                  eq_refl He Hr Hv Htr Hfuel)).
    reflexivity.
  - unfold apply_current. rewrite bind_assoc.
    rewrite (@bind_post _ _ _ _ _ _ _
               (@sets_then_exchange _ fuel [AStr (b "APPL?")] default_timeout s
                  ampers_line (b "APPL?" ++ [LF]) echoes reply rest _ Hl
                  (@sets_optional fuel (b ":CURR") ampers s ampers_line Hl Hq Hampers)
                  eq_refl He Hr Hv Htr Hfuel)).
    reflexivity.
Qed.

Lemma apply_selects_witness :
  apply_voltage 3 (Some (AFloat 5)) 
                (mkScpy 1 None 0 [] [] [b "APPL?" ++ [LF]; b "5.0,1.2" ++ [LF]] None)
  = (Return (PFloat 5),
     mkScpy 1 None 0 [] (b ":VOLT 5.0" ++ [LF] ++ b "APPL?" ++ [LF]) [] None) /\
  apply_current 3 None
                (mkScpy 1 None 0 [] [] [b "APPL?" ++ [LF]; b "5.0,1.2" ++ [LF]] None)
  = (Return (PFloat 1.2),
     mkScpy 1 None 0 [] (b "APPL?" ++ [LF]) [] None).
Proof.
  apply (@apply_selects 3 (Some (AFloat 5)) None
           (mkScpy 1 None 0 [] [] [b "APPL?" ++ [LF]; b "5.0,1.2" ++ [LF]] None)
           (b ":VOLT 5.0" ++ [LF]) [] [b "APPL?" ++ [LF]] (b "5.0,1.2" ++ [LF]) []
           (PFloat 5) (PFloat 1.2) []);
    try reflexivity; repeat constructor.
Defined.

Lemma bind_lift_state : forall (A C : Type) (m : M A) (g : A -> outcome C) s,
    snd (bind m (fun a => lift (g a)) s) = snd (m s).
Proof.
  intros A C m g s. unfold bind, lift. now destruct (m s) as [[a|e|] s'].
Qed.

Lemma bind_ret_state : forall (A C : Type) (m : M A) (g : A -> C) s,
    snd (bind m (fun a => ret (g a)) s) = snd (m s).
Proof.
  intros A C m g s. unfold bind, ret. now destruct (m s) as [[a|e|] s'].
Qed.

(** X6.  [apply_voltage] and [apply_current] index the reply: when the
    instrument stays silent, or answers with a single number, they raise
    [TypeError] (after [command] has restored the timeout), where [apply]
    returns [None] or the number. *)
Theorem apply_voltage_type_error :
  forall (fuel : nat) (volts ampers : option Argument) (s : Scpy)
         (volts_line ampers_line : bytes) (echoes : list bytes)
         (reply : bytes) (rest : list bytes) (v : pyval),
    link s = None ->
    (out_waiting s < fuel)%nat ->
    set_line (b ":VOLT") volts = Return volts_line ->
    set_line (b ":CURR") ampers = Return ampers_line ->
    Forall (fun l => contains (b "APPL?" ++ [LF]) l = true) echoes ->
    (transcript s = echoes ->
     (length echoes + 1 <= fuel)%nat ->
     apply_voltage fuel volts s
     = (Raise TypeError, after_command s (volts_line ++ b "APPL?" ++ [LF]) []) /\
     apply_current fuel ampers s
     = (Raise TypeError, after_command s (ampers_line ++ b "APPL?" ++ [LF]) []) /\
     apply fuel None None s
     = (Return PNone, after_command s (b "APPL?" ++ [LF]) [])) /\
    (contains (b "APPL?" ++ [LF]) reply = false ->
     parse_line reply = Return v ->
     (exists z, v = PInt z) \/ (exists x, v = PFloat x) ->
     transcript s = echoes ++ reply :: rest ->
     (length echoes + 2 <= fuel)%nat ->
     apply_voltage fuel volts s
     = (Raise TypeError, after_command s (volts_line ++ b "APPL?" ++ [LF]) rest) /\
     apply_current fuel ampers s
     = (Raise TypeError, after_command s (ampers_line ++ b "APPL?" ++ [LF]) rest) /\
     apply fuel None None s
     = (Return v, after_command s (b "APPL?" ++ [LF]) rest)).
Proof.
  intros fuel volts ampers s volts_line ampers_line echoes reply rest v
         Hl Hq Hvolts Hampers He.
  pose proof (@sets_optional fuel (b ":VOLT") volts s volts_line Hl Hq Hvolts)
    as Sv.
  pose proof (@sets_optional fuel (b ":CURR") ampers s ampers_line Hl Hq Hampers)
    as Sa.
  split.
  - intros Htr Hfuel. repeat split.
    + unfold apply_voltage. rewrite bind_assoc.
      now rewrite (@bind_post _ _ _ _ _ _ _
                     (@sets_then_silence _ fuel [AStr (b "APPL?")] default_timeout
                        s volts_line (b "APPL?" ++ [LF]) echoes Hl Sv eq_refl
                        He Htr Hfuel)).
    + unfold apply_current. rewrite bind_assoc.
      now rewrite (@bind_post _ _ _ _ _ _ _
                     (@sets_then_silence _ fuel [AStr (b "APPL?")] default_timeout
                        s ampers_line (b "APPL?" ++ [LF]) echoes Hl Sa eq_refl
                        He Htr Hfuel)).
    + exact (@sets_then_silence _ fuel [AStr (b "APPL?")] default_timeout
               s [] (b "APPL?" ++ [LF]) echoes Hl (@sets_nothing s Hl) eq_refl
               He Htr Hfuel).
  - intros Hr Hv Hnum Htr Hfuel.
    assert (Hrep : reported v = v)
      by (destruct Hnum as [[z ->]|[x ->]]; reflexivity).
    assert (Hget : forall i, getitem v i = Raise TypeError)
      by (intros i; destruct Hnum as [[z ->]|[x ->]]; reflexivity).
    repeat split.
    + unfold apply_voltage. rewrite bind_assoc.
      rewrite (@bind_post _ _ _ _ _ _ _
                 (@sets_then_exchange _ fuel [AStr (b "APPL?")] default_timeout
                    s volts_line (b "APPL?" ++ [LF]) echoes reply rest v Hl Sv
                    eq_refl He Hr Hv Htr Hfuel)).
      unfold lift. now rewrite Hrep, Hget.
    + unfold apply_current. rewrite bind_assoc.
      rewrite (@bind_post _ _ _ _ _ _ _
                 (@sets_then_exchange _ fuel [AStr (b "APPL?")] default_timeout
                    s ampers_line (b "APPL?" ++ [LF]) echoes reply rest v Hl Sa
                    eq_refl He Hr Hv Htr Hfuel)).
      unfold lift. now rewrite Hrep, Hget.
    + rewrite <- Hrep at 1.
      exact (@sets_then_exchange _ fuel [AStr (b "APPL?")] default_timeout
               s [] (b "APPL?" ++ [LF]) echoes reply rest v Hl (@sets_nothing s Hl)
               eq_refl He Hr Hv Htr Hfuel).
Qed.

Lemma apply_voltage_type_error_witness :
  apply_voltage 1 None (mkScpy 1 None 0 [] [] [] None)
  = (Raise TypeError, mkScpy 1 None 0 [] (b "APPL?" ++ [LF]) [] None) /\
  apply 1 None None (mkScpy 1 None 0 [] [] [] None)
  = (Return PNone, mkScpy 1 None 0 [] (b "APPL?" ++ [LF]) [] None).
Proof.
  destruct (@apply_voltage_type_error 1 None None
              (mkScpy 1 None 0 [] [] [] None) [] [] [] [] [] PNone
              eq_refl (le_n 1) eq_refl eq_refl (Forall_nil _))
    as [Hsilent _].
  destruct (Hsilent eq_refl (le_n 1)) as (Hv & _ & Ha).
  split; [exact Hv | exact Ha].
Defined.





Lemma float_one_is_not_zero : forall x : float,
    PrimFloat.eqb x 1 = true -> PrimFloat.eqb x 0 = false.
Proof.
  intros x. rewrite !FloatAxioms.eqb_spec.
  change (Prim2SF 1) with (S754_finite false 4503599627370496 (-52)).
  change (Prim2SF 0) with (S754_zero false).
  destruct (Prim2SF x) as [sx|sx| |sx m e]; try discriminate.
  all: intros _; unfold SFeqb, SFcompare; now destruct sx.
Qed.

Lemma output_line : forall on : Argument,
    prepare_line_to_send [AStr (b ":OUTP"); AStr (output_word on)]
    = Return (b ":OUTP " ++ output_word on ++ [LF]).
Proof.
  intros on. unfold output_word.
  destruct (equals_str on (b "ON") || equals_one on); reflexivity.
Qed.

Lemma protection_line : forall (mnemonic : text) (on : Argument),
    mnemonic <> [] ->
    last_byte mnemonic <> Some CR ->
    prepare_line_to_send [AStr mnemonic; AStr (protection_word on)]
    = Return (mnemonic ++ b " " ++ protection_word on ++ [LF]).
Proof.
  intros mnemonic on Hne Hcr.
  assert (Hm : chunk_of (AStr mnemonic) mnemonic).
  { unfold chunk_of, strip_carriage_return. simpl encode_word.
    destruct (last_byte mnemonic) as [c|] eqn:E.
    - destruct (Byte.eqb c CR) eqn:Ec; [|reflexivity].
      apply Byte.byte_dec_bl in Ec. subst c. contradiction.
    - apply last_byte_none in E. contradiction. }
  assert (Hw : chunk_of (AStr (protection_word on)) (protection_word on)).
  { unfold protection_word.
    destruct (truthy on && negb (equals_str on (b "OFF"))); reflexivity. }
  rewrite (@prepare_line_to_send_joined
             [AStr mnemonic; AStr (protection_word on)]
             [mnemonic; protection_word on]).
  - simpl. now rewrite <- !app_assoc.
  - discriminate.
  - repeat constructor; assumption.
Qed.

(** X8.  [output] accepts any value: it writes [:OUTP ON] when the value
    is the text ['ON'] or a number equal to one ([True] included) and
    [:OUTP OFF] for every other value, so [2], ['on'] and [b'ON'] switch
    the output off; the encoding cannot fail. *)
Theorem output_sends :
  forall (fuel : nat) (on : Argument) (s : Scpy),
    link s = None ->
    (out_waiting s < fuel)%nat ->
    wire (snd (output fuel (Some on) s))
    = wire s ++ (b ":OUTP " ++ output_word on ++ [LF]) ++ b ":OUTP?" ++ [LF] /\
    (output_word on = b "ON" \/ output_word on = b "OFF") /\
    (output_word on = b "ON" <->
     on = AStr (b "ON") \/ on = AInt 1 \/ on = ABool true \/
     exists x, on = AFloat x /\ PrimFloat.eqb x 1 = true).
Proof.
  intros fuel on s Hl Hq.
  split; [|split].
  - unfold output. rewrite bind_assoc, bind_ret_state.
    apply sets_then_wire; [|reflexivity|lia].
    apply sets_write_line; [assumption | assumption | apply output_line].
  - unfold output_word.
    destruct (equals_str on (b "ON") || equals_one on); [now left | now right].
  - unfold output_word.
    destruct (equals_str on (b "ON") || equals_one on) eqn:E.
    + split; [intros _ | reflexivity].
      apply orb_true_iff in E. destruct E as [E|E].
      * destruct on as [z|v|x|w|w]; try discriminate.
        apply bytes_eqb_eq in E. left. now subst.
      * destruct on as [z|v|x|w|w]; try discriminate; simpl in E.
        -- apply Z.eqb_eq in E. right. left. now subst.
        -- right. right. left. now subst.
        -- right. right. right. eauto.
    + split; [discriminate|].
      intros [->|[->|[->|[x [-> Hx]]]]]; try discriminate E.
      simpl in E. rewrite Hx in E. discriminate.
Qed.

Lemma output_sends_witness :
  wire (snd (output 1 (Some (AInt 2)) (mkScpy 1 None 0 [] [] [] None)))
  = b ":OUTP OFF" ++ [LF] ++ b ":OUTP?" ++ [LF] /\
  wire (snd (output 1 (Some (ABool true)) (mkScpy 1 None 0 [] [] [] None)))
  = b ":OUTP ON" ++ [LF] ++ b ":OUTP?" ++ [LF].
Proof.
  split.
  - exact (proj1 (@output_sends 1 (AInt 2) (mkScpy 1 None 0 [] [] [] None)
                    eq_refl (le_n 1))).
  - exact (proj1 (@output_sends 1 (ABool true) (mkScpy 1 None 0 [] [] [] None)
                    eq_refl (le_n 1))).
Defined.

(** X9.  The two protection switches write [ON] for every value that is
    true in the sense of [if] and is not the text ['OFF'], and [OFF]
    otherwise.  Every value that switches [output] on switches them on
    too, but not the other way round: [2] turns a protection on and the
    output off. *)
Theorem protection_state_sends :
  forall (fuel : nat) (on : Argument) (s : Scpy),
    link s = None ->
    (out_waiting s < fuel)%nat ->
    wire (snd (current_protection_state fuel (Some on) s))
    = wire s ++ (b ":CURR:PROT:STAT " ++ protection_word on ++ [LF])
             ++ b ":CURR:PROT:STAT?" ++ [LF] /\
    wire (snd (voltage_protection_state fuel (Some on) s))
    = wire s ++ (b ":VOLT:PROT:STAT " ++ protection_word on ++ [LF])
             ++ b ":VOLT:PROT:STAT?" ++ [LF] /\
    (protection_word on = b "ON" <->
     truthy on = true /\ on <> AStr (b "OFF")) /\
    (output_word on = b "ON" -> protection_word on = b "ON") /\
    protection_word (AInt 2) = b "ON" /\
    output_word (AInt 2) = b "OFF".
Proof.
  intros fuel on s Hl Hq.
  split; [|split; [|split; [|split; [|split; reflexivity]]]].
  - unfold current_protection_state. rewrite bind_assoc, bind_ret_state.
    apply sets_then_wire; [|reflexivity|lia].
    apply sets_write_line; [assumption | assumption |].
    now apply (@protection_line (b ":CURR:PROT:STAT") on).
  - unfold voltage_protection_state. rewrite bind_assoc, bind_ret_state.
    apply sets_then_wire; [|reflexivity|lia].
    apply sets_write_line; [assumption | assumption |].
    now apply (@protection_line (b ":VOLT:PROT:STAT") on).
  - unfold protection_word.
    destruct (truthy on) eqn:Et; simpl.
    + destruct (equals_str on (b "OFF")) eqn:Eo; simpl.
      * split; [discriminate|]. intros [_ H]. exfalso. apply H.
        destruct on as [z|v|x|w|w]; try discriminate.
        apply bytes_eqb_eq in Eo. now subst.
      * split; [|reflexivity]. intros _. split; [reflexivity|].
        intros ->. discriminate.
    + split; [discriminate | intros [H _]; discriminate].
  - unfold output_word, protection_word.
    destruct (equals_str on (b "ON") || equals_one on) eqn:E; [|discriminate].
    intros _. apply orb_true_iff in E. destruct E as [E|E].
    + destruct on as [z|v|x|w|w]; try discriminate.
      apply bytes_eqb_eq in E. now subst.
    + destruct on as [z|v|x|w|w]; try discriminate; simpl in E |- *.
      * apply Z.eqb_eq in E. now subst.
      * now subst.
      * now rewrite (float_one_is_not_zero E).
Qed.

Lemma protection_state_sends_witness :
  wire (snd (current_protection_state 1 (Some (AStr (b "on")))
                                      (mkScpy 1 None 0 [] [] [] None)))
  = b ":CURR:PROT:STAT ON" ++ [LF] ++ b ":CURR:PROT:STAT?" ++ [LF] /\
  wire (snd (output 1 (Some (AStr (b "on"))) (mkScpy 1 None 0 [] [] [] None)))
  = b ":OUTP OFF" ++ [LF] ++ b ":OUTP?" ++ [LF].
Proof.
  split.
  - exact (proj1 (@protection_state_sends 1 (AStr (b "on"))
                    (mkScpy 1 None 0 [] [] [] None) eq_refl (le_n 1))).
  - vm_compute. reflexivity.
Defined.

Lemma one_if_on_reported : forall v : pyval,
    (one_if_on (reported v) = PInt 1 \/ one_if_on (reported v) = PInt 0) /\
    (one_if_on (reported v) = PInt 1 <-> v = PStr (b "ON")).
Proof.
  intros v. unfold reported.
  destruct v as [|z|x|w|l]; cbn -[bytes_eqb];
    try (split; [now right | split; intros H; discriminate H]).
  destruct w as [|c w]; cbn -[bytes_eqb];
    [split; [now right | split; intros H; discriminate H]|].
  unfold one_if_on.
  destruct (bytes_eqb (c :: w) _) eqn:E.
  - apply bytes_eqb_eq in E. rewrite E. split; [now left | tauto].
  - split; [now right|]. split; [intros H; discriminate H|].
    intros H.
    rewrite (proj2 (bytes_eqb_eq _ _)
               (f_equal (fun v => match v with PStr s => s | _ => [] end) H))
      in E.
    discriminate E.
Qed.

Lemma sets_output : forall fuel on s,
    link s = None ->
    (out_waiting s < fuel)%nat ->
    sets (match on with
          | Some on => write_line fuel [AStr (b ":OUTP"); AStr (output_word on)]
          | None => ret tt
          end) s (output_data on).
Proof.
  intros fuel [on|] s Hl Hq.
  - apply sets_write_line; [assumption | assumption | apply output_line].
  - now apply sets_nothing.
Qed.

(** X10.  [output] answers 1 exactly when the accepted reply parses to the
    single text [ON]; for every other reply it answers 0, and it answers 0
    as well when the instrument sends nothing, so a silent instrument
    reads as switched off. *)
Theorem output_reads :
  forall (fuel : nat) (on : option Argument) (s : Scpy)
         (echoes : list bytes) (reply : bytes) (rest : list bytes) (v : pyval),
    link s = None ->
    (out_waiting s < fuel)%nat ->
    Forall (fun l => contains (b ":OUTP?" ++ [LF]) l = true) echoes ->
    (contains (b ":OUTP?" ++ [LF]) reply = false ->
     parse_line reply = Return v ->
     transcript s = echoes ++ reply :: rest ->
     (length echoes + 2 <= fuel)%nat ->
     exists r : pyval,
       output fuel on s
       = (Return r, after_command s (output_data on ++ b ":OUTP?" ++ [LF]) rest) /\
       (r = PInt 1 \/ r = PInt 0) /\
       (r = PInt 1 <-> v = PStr (b "ON"))) /\
    (transcript s = echoes ->
     (length echoes + 1 <= fuel)%nat ->
     output fuel on s
     = (Return (PInt 0), after_command s (output_data on ++ b ":OUTP?" ++ [LF]) [])).
Proof.
  intros fuel on s echoes reply rest v Hl Hq He.
  pose proof (@sets_output fuel on s Hl Hq) as Hs.
  split.
  - intros Hr Hv Htr Hfuel. exists (one_if_on (reported v)).
    split; [|apply one_if_on_reported].
    unfold output. rewrite bind_assoc.
    now rewrite (@bind_post _ _ _ _ _ _ _
                   (@sets_then_exchange _ fuel [AStr (b ":OUTP?")] default_timeout
                      s (output_data on) (b ":OUTP?" ++ [LF]) echoes reply rest v
                      Hl Hs eq_refl He Hr Hv Htr Hfuel)).
  - intros Htr Hfuel. unfold output. rewrite bind_assoc.
    now rewrite (@bind_post _ _ _ _ _ _ _
                   (@sets_then_silence _ fuel [AStr (b ":OUTP?")] default_timeout
                      s (output_data on) (b ":OUTP?" ++ [LF]) echoes
                      Hl Hs eq_refl He Htr Hfuel)).
Qed.

Lemma output_reads_witness :
  output 2 None (mkScpy 1 None 0 [] [] [b ":OUTP?" ++ [LF]] None)
  = (Return (PInt 0), mkScpy 1 None 0 [] (b ":OUTP?" ++ [LF]) [] None) /\
  fst (output 2 None (mkScpy 1 None 0 [] [] [b "ON;" ++ [LF]] None))
  = Return (PInt 0).
Proof.
  split.
  - exact (proj2 (@output_reads 2 None
                    (mkScpy 1 None 0 [] [] [b ":OUTP?" ++ [LF]] None)
                    [b ":OUTP?" ++ [LF]] [] [] PNone eq_refl
                    (le_S 1 1 (le_n 1))
                    (Forall_cons (b ":OUTP?" ++ [LF]) eq_refl (Forall_nil _)))
                 eq_refl (le_n 2)).
  - vm_compute. reflexivity.
Defined.

(** X11.  [current_protection_clear] and [voltage_protection_clear] run two
    exchanges: the first accepted line answers the clear command and its
    value is thrown away, whatever it is, and the second accepted line alone
    decides the result.  Both lines are consumed and both commands are on
    the wire. *)
Theorem protection_clear_two_replies :
  forall (fuel : nat) (s : Scpy) (first second : bytes) (rest : list bytes)
         (v1 v2 : pyval),
    link s = None ->
    (2 <= fuel)%nat ->
    parse_line first = Return v1 ->
    parse_line second = Return v2 ->
    transcript s = first :: second :: rest ->
    (contains (b ":CURR:PROT:CLE" ++ [LF]) first = false ->
     contains (b ":CURR:PROT:TRIP?" ++ [LF]) second = false ->
     current_protection_clear fuel s
     = (Return (one_if_on (reported v2)),
        after_command s (b ":CURR:PROT:CLE" ++ [LF] ++ b ":CURR:PROT:TRIP?" ++ [LF])
                      rest)) /\
    (contains (b ":VOLT:PROT:CLE" ++ [LF]) first = false ->
     contains (b ":VOLT:PROT:TRIP?" ++ [LF]) second = false ->
     voltage_protection_clear fuel s
     = (Return (one_if_on (reported v2)),
        after_command s (b ":VOLT:PROT:CLE" ++ [LF] ++ b ":VOLT:PROT:TRIP?" ++ [LF])
                      rest)).
Proof.
  intros fuel s first second rest v1 v2 Hl Hfuel Hv1 Hv2 Htr.
  assert (Hboth : forall cle trip : bytes,
             contains (cle ++ [LF]) first = false ->
             contains (trip ++ [LF]) second = false ->
             prepare_line_to_send [AStr cle] = Return (cle ++ [LF]) ->
             prepare_line_to_send [AStr trip] = Return (trip ++ [LF]) ->
             (let! _ := command fuel [AStr cle] default_timeout in
              let! reply := command fuel [AStr trip] default_timeout in
              ret (one_if_on reply))%session s
             = (Return (one_if_on (reported v2)),
                after_command s ((cle ++ [LF]) ++ trip ++ [LF]) rest)).
  { intros cle trip H1 H2 Hcle Htrip.
    rewrite (@bind_post _ _ _ _ _ _ _
               (@command_exchange fuel [AStr cle] default_timeout s (cle ++ [LF])
                  [] first (second :: rest) v1 Hl Hcle (Forall_nil _) H1 Hv1 Htr
                  Hfuel)).
    assert (Hl1 : link (after_command s (cle ++ [LF]) (second :: rest)) = None)
      by exact Hl.
    rewrite (@bind_post _ _ _ _ _ _ _
               (@command_exchange fuel [AStr trip] default_timeout
                  (after_command s (cle ++ [LF]) (second :: rest)) (trip ++ [LF])
                  [] second rest v2 Hl1 Htrip (Forall_nil _) H2 Hv2 eq_refl
                  Hfuel)).
    unfold ret, after_command. cbn [timeout wire link].
    now rewrite <- (app_assoc (wire s)). }
  split; intros H1 H2.
  - now apply (Hboth (b ":CURR:PROT:CLE") (b ":CURR:PROT:TRIP?")).
  - now apply (Hboth (b ":VOLT:PROT:CLE") (b ":VOLT:PROT:TRIP?")).
Qed.

Lemma protection_clear_two_replies_witness :
  current_protection_clear 2
    (mkScpy 1 None 0 [] [] [b "ON" ++ [LF]; b "OFF" ++ [LF]; b "ON" ++ [LF]] None)
  = (Return (PInt 0),
     mkScpy 1 None 0 []
            (b ":CURR:PROT:CLE" ++ [LF] ++ b ":CURR:PROT:TRIP?" ++ [LF])
            [b "ON" ++ [LF]] None).
Proof.
  exact (proj1 (@protection_clear_two_replies 2
                  (mkScpy 1 None 0 [] []
                          [b "ON" ++ [LF]; b "OFF" ++ [LF]; b "ON" ++ [LF]] None)
                  (b "ON" ++ [LF]) (b "OFF" ++ [LF]) [b "ON" ++ [LF]]
                  (PStr (b "ON")) (PStr (b "OFF"))
                  eq_refl (le_n 2) eq_refl eq_refl eq_refl)
               eq_refl eq_refl).
Defined.

Lemma psc_line : forall state : Argument,
    prepare_line_to_send
      [AStr (b "*PSC"); AInt (if differs_from_zero state then 1 else 0)]
    = Return (b "*PSC " ++ (if differs_from_zero state then b "1" else b "0")
                ++ [LF]).
Proof. intros state. destruct (differs_from_zero state); reflexivity. Qed.

(** X12.  [power_on_clean_status] reduces a given state to 0 or 1 before
    it writes it: every value other than a number equal to zero, any text
    included, is written as [*PSC 1].  The encoding cannot fail, and the
    call returns the parsed reply to the query [*PSC?] that follows. *)
Theorem power_on_clean_status_sends :
  forall (fuel : nat) (state : Argument) (s : Scpy)
         (echoes : list bytes) (reply : bytes) (rest : list bytes) (v : pyval),
    link s = None ->
    (out_waiting s < fuel)%nat ->
    Forall (fun l => contains (b "*PSC?" ++ [LF]) l = true) echoes ->
    contains (b "*PSC?" ++ [LF]) reply = false ->
    parse_line reply = Return v ->
    transcript s = echoes ++ reply :: rest ->
    (length echoes + 2 <= fuel)%nat ->
    power_on_clean_status fuel (Some state) s
    = (Return (reported v),
       after_command s
         ((b "*PSC " ++ (if differs_from_zero state then b "1" else b "0") ++ [LF])
            ++ b "*PSC?" ++ [LF]) rest).
Proof.
  intros fuel state s echoes reply rest v Hl Hq He Hr Hv Htr Hfuel.
  unfold power_on_clean_status.
  apply (@sets_then_exchange _ fuel [AStr (b "*PSC?")] default_timeout s
           (b "*PSC " ++ (if differs_from_zero state then b "1" else b "0") ++ [LF])
           (b "*PSC?" ++ [LF]) echoes reply rest v Hl); try assumption;
    try reflexivity.
  apply sets_write_line; [assumption | assumption | apply psc_line].
Qed.

Lemma power_on_clean_status_sends_witness :
  power_on_clean_status 2 (Some (AInt (-3)))
    (mkScpy 1 None 0 [] [] [b "1" ++ [LF]] None)
  = (Return (PInt 1),
     mkScpy 1 None 0 [] (b "*PSC 1" ++ [LF] ++ b "*PSC?" ++ [LF]) [] None).
Proof.
  apply (@power_on_clean_status_sends 2 (AInt (-3))
           (mkScpy 1 None 0 [] [] [b "1" ++ [LF]] None)
           [] (b "1" ++ [LF]) [] (PInt 1));
    try reflexivity; repeat constructor.
Defined.

(** X13.  [clear_errors] and [reset] write their command without waiting
    for an answer to it and return the parsed reply to the query that
    follows ([*ESR?], [*OPC?]); both lines are on the wire in that order
    and the timeout is as before. *)
Theorem clear_errors_and_reset :
  forall (fuel : nat) (s : Scpy) (reply : bytes) (rest : list bytes) (v : pyval),
    link s = None ->
    (out_waiting s < fuel)%nat ->
    (2 <= fuel)%nat ->
    parse_line reply = Return v ->
    transcript s = reply :: rest ->
    (contains (b "*ESR?" ++ [LF]) reply = false ->
     clear_errors fuel s
     = (Return (reported v),
        after_command s (b "*CLS" ++ [LF] ++ b "*ESR?" ++ [LF]) rest)) /\
    (contains (b "*OPC?" ++ [LF]) reply = false ->
     reset fuel s
     = (Return (reported v),
        after_command s (b "*RST" ++ [LF] ++ b "*OPC?" ++ [LF]) rest)).
Proof.
  intros fuel s reply rest v Hl Hq Hfuel Hv Htr. split; intros Hr.
  - unfold clear_errors.
    apply (@sets_then_exchange _ fuel [AStr (b "*ESR?")] default_timeout s
             (b "*CLS" ++ [LF]) (b "*ESR?" ++ [LF]) [] reply rest v Hl);
      try assumption; try reflexivity; [|constructor].
    now apply sets_write_line.
  - unfold reset.
    change (write_line fuel [AStr (b "*RST")] ;;
            sleep 7 ;; command fuel [AStr (b "*OPC?")] default_timeout)%session
      with (bind (write_line fuel [AStr (b "*RST")])
                 (fun _ => bind (sleep 7)
                             (fun _ => command fuel [AStr (b "*OPC?")]
                                               default_timeout))).
    rewrite bind_assoc.
    apply (@sets_then_exchange _ fuel [AStr (b "*OPC?")] default_timeout s
             (b "*RST" ++ [LF]) (b "*OPC?" ++ [LF]) [] reply rest v Hl);
      try assumption; try reflexivity; [|constructor].
    destruct (@sets_write_line fuel [AStr (b "*RST")] s (b "*RST" ++ [LF])
                Hl Hq eq_refl) as [s1 (Hset & Hrest)].
    exists s1. split; [|exact Hrest].
    unfold bind, sleep, ret. now rewrite Hset.
Qed.

Lemma clear_errors_and_reset_witness :
  clear_errors 2 (mkScpy 1 None 0 [] [] [b "32" ++ [LF]] None)
  = (Return (PInt 32),
     mkScpy 1 None 0 [] (b "*CLS" ++ [LF] ++ b "*ESR?" ++ [LF]) [] None).
Proof.
  exact (proj1 (@clear_errors_and_reset 2
                  (mkScpy 1 None 0 [] [] [b "32" ++ [LF]] None)
                  (b "32" ++ [LF]) [] (PInt 32)
                  eq_refl (le_S 1 1 (le_n 1)) (le_n 2) eq_refl eq_refl)
               eq_refl).
Defined.

(** X14.  [delay_time], [current_protection_level] and
    [voltage_protection_level] write the given value as one line ahead of
    their query, or nothing when no value is given, and return the parsed
    reply to the query as [command] gives it. *)
Theorem level_setters_exchange :
  forall (fuel : nat) (value : option Argument) (s : Scpy)
         (echoes : list bytes) (reply : bytes) (rest : list bytes) (v : pyval),
    link s = None ->
    (out_waiting s < fuel)%nat ->
    parse_line reply = Return v ->
    transcript s = echoes ++ reply :: rest ->
    (length echoes + 2 <= fuel)%nat ->
    (forall data : bytes,
        set_line (b ":SYST:AUTO:DEL") value = Return data ->
        Forall (fun l => contains (b ":SYST:AUTO:DEL?" ++ [LF]) l = true) echoes ->
        contains (b ":SYST:AUTO:DEL?" ++ [LF]) reply = false ->
        delay_time fuel value s
        = (Return (reported v),
           after_command s (data ++ b ":SYST:AUTO:DEL?" ++ [LF]) rest)) /\
    (forall data : bytes,
        set_line (b ":CURR:PROT:LEV") value = Return data ->
        Forall (fun l => contains (b ":CURR:PROT:LEV?" ++ [LF]) l = true) echoes ->
        contains (b ":CURR:PROT:LEV?" ++ [LF]) reply = false ->
        current_protection_level fuel value s
        = (Return (reported v),
           after_command s (data ++ b ":CURR:PROT:LEV?" ++ [LF]) rest)) /\
    (forall data : bytes,
        set_line (b ":VOLT:PROT:LEV") value = Return data ->
        Forall (fun l => contains (b ":VOLT:PROT:LEV?" ++ [LF]) l = true) echoes ->
        contains (b ":VOLT:PROT:LEV?" ++ [LF]) reply = false ->
        voltage_protection_level fuel value s
        = (Return (reported v),
           after_command s (data ++ b ":VOLT:PROT:LEV?" ++ [LF]) rest)).
Proof.
  intros fuel value s echoes reply rest v Hl Hq Hv Htr Hfuel.
  repeat split; intros data Hdata He Hr.
  - unfold delay_time.
    apply (@sets_then_exchange _ fuel [AStr (b ":SYST:AUTO:DEL?")]
             default_timeout s data (b ":SYST:AUTO:DEL?" ++ [LF])
             echoes reply rest v Hl); try assumption; try reflexivity.
    now apply sets_optional.
  - unfold current_protection_level.
    apply (@sets_then_exchange _ fuel [AStr (b ":CURR:PROT:LEV?")]
             default_timeout s data (b ":CURR:PROT:LEV?" ++ [LF])
             echoes reply rest v Hl); try assumption; try reflexivity.
    now apply sets_optional.
  - unfold voltage_protection_level.
    apply (@sets_then_exchange _ fuel [AStr (b ":VOLT:PROT:LEV?")]
             default_timeout s data (b ":VOLT:PROT:LEV?" ++ [LF])
             echoes reply rest v Hl); try assumption; try reflexivity.
    now apply sets_optional.
Qed.

Lemma level_setters_exchange_witness :
  current_protection_level 3 (Some (AFloat 1.5))
    (mkScpy 1 None 0 [] []
            [b ":CURR:PROT:LEV?" ++ [LF]; b "1.5" ++ [LF]; b "late" ++ [LF]] None)
  = (Return (PFloat 1.5),
     mkScpy 1 None 0 []
            (b ":CURR:PROT:LEV 1.5" ++ [LF] ++ b ":CURR:PROT:LEV?" ++ [LF])
            [b "late" ++ [LF]] None).
Proof.
  apply (proj1 (proj2
           (@level_setters_exchange 3 (Some (AFloat 1.5))
              (mkScpy 1 None 0 [] []
                 [b ":CURR:PROT:LEV?" ++ [LF]; b "1.5" ++ [LF]; b "late" ++ [LF]]
                 None)
              [b ":CURR:PROT:LEV?" ++ [LF]] (b "1.5" ++ [LF]) [b "late" ++ [LF]]
              (PFloat 1.5) eq_refl (le_S _ _ (le_S _ _ (le_n 1))) eq_refl eq_refl
              (le_n 3)))
           (b ":CURR:PROT:LEV 1.5" ++ [LF]));
    try reflexivity; repeat constructor.
Defined.

Lemma write_line_empty_word : forall fuel mnemonic value s,
    encode_word value = [] ->
    write_line fuel [AStr mnemonic; value] s = (Raise IndexError, s).
Proof.
  intros fuel mnemonic value s H. apply write_line_raises.
  unfold prepare_line_to_send.
  rewrite fill_output_buffer_empty_word; [reflexivity|].
  apply Exists_cons_tl, Exists_cons_hd, H.
Qed.

Lemma bind_raise : forall (A C : Type) (m : M A) (k : A -> M C) s e s',
    m s = (Raise e, s') -> bind m k s = (Raise e, s').
Proof. intros A C m k s e s' H. unfold bind. now rewrite H. Qed.

(** X15.  A value whose text is empty (the empty [str] or [bytes]) makes
    every level setter raise [IndexError] before anything is written: the
    session is exactly as it was, and the query is not sent.  [apply]
    alone never fails so, because it skips a value that is false. *)
Theorem setters_reject_empty_text :
  forall (fuel : nat) (value : Argument) (s : Scpy),
    encode_word value = [] ->
    delay_time fuel (Some value) s = (Raise IndexError, s) /\
    current_protection_level fuel (Some value) s = (Raise IndexError, s) /\
    voltage_protection_level fuel (Some value) s = (Raise IndexError, s) /\
    apply_voltage fuel (Some value) s = (Raise IndexError, s) /\
    apply_current fuel (Some value) s = (Raise IndexError, s) /\
    (forall other : Argument,
        wire (snd (apply fuel (Some value) (Some other) s))
        = wire (snd (apply fuel None None s)) /\
        wire (snd (apply fuel (Some other) (Some value) s))
        = wire (snd (apply fuel None None s))).
Proof.
  intros fuel value s H.
  pose proof (fun mnemonic => @write_line_empty_word fuel mnemonic value s H) as Hw.
  repeat split.
  - unfold delay_time. now apply bind_raise.
  - unfold current_protection_level. now apply bind_raise.
  - unfold voltage_protection_level. now apply bind_raise.
  - unfold apply_voltage. now apply bind_raise.
  - unfold apply_current. now apply bind_raise.
  - unfold apply.
    destruct (proj1 (encode_word_empty value) H) as [-> | ->]; reflexivity.
  - unfold apply.
    destruct (proj1 (encode_word_empty value) H) as [-> | ->]; cbn [truthy];
      now rewrite andb_false_r.
Qed.

Lemma setters_reject_empty_text_witness :
  delay_time 2 (Some (AStr [])) (mkScpy 1 None 0 (b "stale") [] [b "1" ++ [LF]] None)
  = (Raise IndexError, mkScpy 1 None 0 (b "stale") [] [b "1" ++ [LF]] None).
Proof.
  exact (proj1 (@setters_reject_empty_text 2 (AStr [])
                  (mkScpy 1 None 0 (b "stale") [] [b "1" ++ [LF]] None)
                  eq_refl)).
Defined.

Lemma contains_part : forall a p q hay : bytes,
    contains a hay = false -> contains (p ++ a ++ q) hay = false.
Proof.
  intros a p q hay H.
  destruct (contains (p ++ a ++ q) hay) eqn:E; [|reflexivity].
  apply contains_spec in E. destruct E as [pre [post E]].
  assert (Ha : contains a hay = true).
  { apply contains_spec. exists (pre ++ p), (q ++ post).
    rewrite E. now rewrite <- !app_assoc. }
  congruence.
Qed.

Lemma sets_protection : forall fuel mnemonic on s,
    mnemonic <> [] ->
    last_byte mnemonic <> Some CR ->
    link s = None ->
    (out_waiting s < fuel)%nat ->
    exists data,
      sets (match on with
            | Some on => write_line fuel [AStr mnemonic; AStr (protection_word on)]
            | None => ret tt
            end) s data.
Proof.
  intros fuel mnemonic [on|] s Hne Hcr Hl Hq.
  - eexists. apply sets_write_line; [assumption | assumption |].
    now apply protection_line.
  - exists []. now apply sets_nothing.
Qed.

(** X16.  The protection state and trip queries answer 1 exactly when the
    accepted reply parses to the single text [ON], and 0 for every other
    reply: an instrument that answers [1], [on] or [ON;] reads as 0. *)
Theorem protection_reads :
  forall (fuel : nat) (on : option Argument) (s : Scpy)
         (reply : bytes) (rest : list bytes) (v : pyval),
    link s = None ->
    (out_waiting s < fuel)%nat ->
    (2 <= fuel)%nat ->
    contains (b "?") reply = false ->
    parse_line reply = Return v ->
    transcript s = reply :: rest ->
    exists r : pyval,
      (r = PInt 1 \/ r = PInt 0) /\
      (r = PInt 1 <-> v = PStr (b "ON")) /\
      fst (current_protection_triped fuel s) = Return r /\
      fst (voltage_protection_triped fuel s) = Return r /\
      fst (current_protection_state fuel on s) = Return r /\
      fst (voltage_protection_state fuel on s) = Return r.
Proof.
  intros fuel on s reply rest v Hl Hq Hfuel Hr Hv Htr.
  exists (one_if_on (reported v)).
  destruct (one_if_on_reported v) as [H01 Hon].
  assert (Hmark : forall mnemonic : bytes,
             contains (mnemonic ++ b "?" ++ [LF]) reply = false)
    by (intros mnemonic; now apply contains_part).
  assert (Htrip : forall mnemonic : bytes,
             prepare_line_to_send [AStr (mnemonic ++ b "?")]
             = Return (mnemonic ++ b "?" ++ [LF]) ->
             fst ((let! reply := command fuel [AStr (mnemonic ++ b "?")]
                                         default_timeout in
                   ret (one_if_on reply))%session s)
             = Return (one_if_on (reported v))).
  { intros mnemonic Hline.
    now rewrite (@bind_post _ _ _ _ _ _ _
                   (@command_exchange fuel _ default_timeout s _ [] reply rest v
                      Hl Hline (Forall_nil _) (Hmark mnemonic) Hv Htr Hfuel)). }
  assert (Hstate : forall mnemonic : bytes,
             mnemonic <> [] ->
             last_byte mnemonic <> Some CR ->
             prepare_line_to_send [AStr (mnemonic ++ b "?")]
             = Return (mnemonic ++ b "?" ++ [LF]) ->
             fst ((match on with
                   | Some on =>
                       write_line fuel [AStr mnemonic; AStr (protection_word on)]
                   | None => ret tt
                   end ;;
                   let! reply := command fuel [AStr (mnemonic ++ b "?")]
                                         default_timeout in
                   ret (one_if_on reply))%session s)
             = Return (one_if_on (reported v))).
  { intros mnemonic Hne Hcr Hline.
    destruct (@sets_protection fuel mnemonic on s Hne Hcr Hl Hq) as [data Hs].
    rewrite bind_assoc.
    now rewrite (@bind_post _ _ _ _ _ _ _
                   (@sets_then_exchange _ fuel _ default_timeout s data _ []
                      reply rest v Hl Hs Hline (Forall_nil _) (Hmark mnemonic)
                      Hv Htr Hfuel)). }
  repeat split; try (apply Hon); try exact H01.
  - exact (Htrip (b ":CURR:PROT:TRIP") eq_refl).
  - exact (Htrip (b ":VOLT:PROT:TRIP") eq_refl).
  - apply (Hstate (b ":CURR:PROT:STAT")); (discriminate || reflexivity).
  - apply (Hstate (b ":VOLT:PROT:STAT")); (discriminate || reflexivity).
Qed.

Lemma protection_reads_witness :
  exists r : pyval,
    (r = PInt 1 \/ r = PInt 0) /\
    (r = PInt 1 <-> PInt 1 = PStr (b "ON")) /\
    fst (current_protection_triped 2
           (mkScpy 1 None 0 [] [] [b "1" ++ [LF]] None)) = Return r /\
    fst (voltage_protection_triped 2
           (mkScpy 1 None 0 [] [] [b "1" ++ [LF]] None)) = Return r /\
    fst (current_protection_state 2 (Some (AInt 1))
           (mkScpy 1 None 0 [] [] [b "1" ++ [LF]] None)) = Return r /\
    fst (voltage_protection_state 2 (Some (AInt 1))
           (mkScpy 1 None 0 [] [] [b "1" ++ [LF]] None)) = Return r.
Proof.
  exact (@protection_reads 2 (Some (AInt 1))
           (mkScpy 1 None 0 [] [] [b "1" ++ [LF]] None)
           (b "1" ++ [LF]) [] (PInt 1)
           eq_refl (le_S 1 1 (le_n 1)) (le_n 2) eq_refl eq_refl eq_refl).
Defined.

(** *** Integers through the encoder and back *)











(** ** Calibration polynomials *)

Lemma bytes_eqb_refl : forall x : bytes, bytes_eqb x x = true.
Proof. intros x. now apply bytes_eqb_eq. Qed.

Lemma bytes_eqb_neq : forall x y : bytes, x <> y -> bytes_eqb x y = false.
Proof.
  intros x y H. destruct (bytes_eqb x y) eqn:E; [|reflexivity].
  apply bytes_eqb_eq in E. contradiction.
Qed.

Lemma dict_get_set_same : forall d name coef,
    dict_get (dict_set d name coef) name = Some coef.
Proof.
  induction d as [|[k v] d IH]; intros name coef; simpl.
  - now rewrite bytes_eqb_refl.
  - destruct (bytes_eqb k name) eqn:E; simpl; rewrite E; [reflexivity | apply IH].
Qed.

Lemma dict_get_set_other : forall d name coef other,
    other <> name ->
    dict_get (dict_set d name coef) other = dict_get d other.
Proof.
  induction d as [|[k v] d IH]; intros name coef other H; simpl.
  - rewrite bytes_eqb_neq; [reflexivity | congruence].
  - destruct (bytes_eqb k name) eqn:E; simpl.
    + apply bytes_eqb_eq in E. subst k.
      rewrite bytes_eqb_neq; [reflexivity | congruence].
    + destruct (bytes_eqb k other); [reflexivity | now apply IH].
Qed.

Lemma dict_get_none : forall d name,
    dict_get d name = None <-> ~ In name (map fst d).
Proof.
  induction d as [|[k v] d IH]; intros name; simpl; [tauto|].
  destruct (bytes_eqb k name) eqn:E.
  - apply bytes_eqb_eq in E. split; [discriminate | intros H; tauto].
  - rewrite IH. split; [|tauto].
    intros H [Hk|Hin]; [|tauto].
    subst k. now rewrite bytes_eqb_refl in E.
Qed.

Lemma dict_get_in : forall d name coef,
    dict_get d name = Some coef -> In (name, coef) d.
Proof.
  induction d as [|[k v] d IH]; intros name coef; simpl; [discriminate|].
  destruct (bytes_eqb k name) eqn:E.
  - apply bytes_eqb_eq in E. intros H. injection H as <-. left. now subst.
  - intros H. right. now apply IH.
Qed.

Lemma dict_set_keys : forall d name coef,
    map fst (dict_set d name coef)
    = match dict_get d name with
      | Some _ => map fst d
      | None => map fst d ++ [name]
      end.
Proof.
  induction d as [|[k v] d IH]; intros name coef; simpl; [reflexivity|].
  destruct (bytes_eqb k name) eqn:E; simpl; [reflexivity|].
  rewrite IH. now destruct (dict_get d name).
Qed.

Lemma dict_set_values : forall d name coef,
    coef <> [] ->
    Forall (fun item : text * list float => snd item <> []) d ->
    Forall (fun item : text * list float => snd item <> []) (dict_set d name coef).
Proof.
  induction d as [|[k v] d IH]; intros name coef Hne H; simpl.
  - now repeat constructor.
  - inversion H as [|? ? Hv Hd]; subst.
    destruct (bytes_eqb k name); constructor; auto.
Qed.

Lemma dict_set_well_formed : forall d name coef,
    coef <> [] -> well_formed d -> well_formed (dict_set d name coef).
Proof.
  intros d name coef Hne [Hkeys Hvalues]. split.
  - rewrite dict_set_keys. destruct (dict_get d name) eqn:E; [assumption|].
    apply dict_get_none in E.
    apply NoDup_app; [assumption | repeat constructor; intros [] |].
    intros k Hin [Hk|[]]. now subst k.
  - now apply dict_set_values.
Qed.

Lemma add_polynom_well_formed : forall d coef name,
    well_formed d -> well_formed (snd (add_polynom d coef name)).
Proof.
  intros d [|c coef] name H; simpl; [assumption|].
  apply dict_set_well_formed; [discriminate | assumption].
Qed.

Lemma add_all_well_formed : forall calls d,
    well_formed d -> well_formed (add_all calls d).
Proof.
  induction calls as [|call calls IH]; intros d H; simpl; [assumption|].
  apply IH. now apply add_polynom_well_formed.
Qed.

Lemma add_all_missing : forall calls d name,
    dict_get (add_all calls d) name = None <->
    dict_get d name = None /\ forall coef, In (coef, name) calls -> coef = [].
Proof.
  induction calls as [|[coef' name'] calls IH]; intros d name; simpl.
  - split; [intros H; split; [assumption | intros coef []] | tauto].
  - rewrite IH. destruct coef' as [|c coef']; simpl.
    + split.
      * intros [Hd Hcalls]. split; [assumption|].
        intros coef [E|Hin]; [now injection E as <- _ | now apply Hcalls].
      * intros [Hd Hcalls]. split; [assumption|].
        intros coef Hin. apply Hcalls. now right.
    + split.
      * intros [Hd Hcalls].
        assert (Hother : name <> name').
        { intros ->. rewrite dict_get_set_same in Hd. discriminate. }
        rewrite dict_get_set_other in Hd by assumption.
        split; [assumption|].
        intros coef [E|Hin]; [congruence | now apply Hcalls].
      * intros [Hd Hcalls].
        assert (Hother : name <> name').
        { intros ->. specialize (Hcalls (c :: coef') (or_introl eq_refl)).
          discriminate. }
        rewrite dict_get_set_other by assumption.
        split; [assumption|].
        intros coef Hin. apply Hcalls. now right.
Qed.

(** X18.  After [add_polynom] has stored a non-empty coefficient list
    under a name, [polynom] evaluates that list for the name, by Horner's
    scheme, and gives for every other name what it gave before; storing
    an empty list raises [ValueError] and leaves the dict as it was. *)
Theorem add_polynom_then_polynom :
  forall (d : poly_dict) (coef : list float) (polynom_name : text),
    (coef <> [] ->
     fst (add_polynom d coef polynom_name) = Return tt /\
     (forall x : float,
         polynom (snd (add_polynom d coef polynom_name)) x polynom_name
         = inl (horner x coef)) /\
     (forall (x : float) (other : text),
         other <> polynom_name ->
         polynom (snd (add_polynom d coef polynom_name)) x other
         = polynom d x other)) /\
    (coef = [] -> add_polynom d coef polynom_name = (Raise ValueError, d)).
Proof.
  intros d coef polynom_name. split.
  - intros Hne. destruct coef as [|c coef]; [congruence|]. simpl.
    split; [reflexivity|]. split.
    + intros x. unfold polynom. now rewrite dict_get_set_same.
    + intros x other H. unfold polynom. now rewrite dict_get_set_other.
  - now intros ->.
Qed.

Lemma add_polynom_then_polynom_witness :
  polynom (snd (add_polynom Calibrations [2%float; 1%float] (b "equ")))
          3%float (b "equ") = inl 7%float /\
  polynom (snd (add_polynom Calibrations [2%float; 1%float] (b "equ")))
          3%float (b "hlv") = inl 1.5%float.
Proof.
  destruct (proj1 (@add_polynom_then_polynom Calibrations [2%float; 1%float]
                     (b "equ")))
    as (_ & Hsame & Hother); [discriminate|].
  split.
  - exact (Hsame 3%float).
  - rewrite (Hother 3%float (b "hlv")); [reflexivity | discriminate].
Defined.

(** X19.  Starting from the defaults and through any run of
    [add_polynom] calls, those that raise included, every name is stored
    once and no stored list is empty, so [polynom] never raises
    [ValueError]; it raises [KeyError] exactly for a name that is not a
    default and that no call has stored with a non-empty list.  (A list is
    a value here: a caller that empties a list after handing it over is
    outside this statement.) *)
Theorem polynom_after_add_polynom :
  forall (calls : list (list float * text)) (x : float) (name : text),
    well_formed (add_all calls Calibrations) /\
    polynom (add_all calls Calibrations) x name <> inr (Other ValueError) /\
    (polynom (add_all calls Calibrations) x name = inr KeyError <->
     name <> b "equ" /\ name <> b "hlv" /\
     forall coef, In (coef, name) calls -> coef = []).
Proof.
  intros calls x name.
  assert (Hwf : well_formed (add_all calls Calibrations)).
  { apply add_all_well_formed. split.
    - repeat constructor; simpl; intuition discriminate.
    - repeat constructor; discriminate. }
  split; [exact Hwf|].
  assert (Hdefaults : dict_get Calibrations name = None <->
                      name <> b "equ" /\ name <> b "hlv").
  { rewrite dict_get_none. simpl. intuition congruence. }
  unfold polynom.
  destruct (dict_get (add_all calls Calibrations) name) as [coef|] eqn:E.
  - assert (Hne : coef <> []).
    { apply dict_get_in in E. destruct Hwf as [_ Hvalues].
      rewrite Forall_forall in Hvalues. exact (Hvalues _ E). }
    destruct coef as [|c coef]; [congruence|].
    split; [discriminate|]. split; [discriminate|].
    intros (H1 & H2 & Hcalls).
    assert (Hnone : dict_get (add_all calls Calibrations) name = None).
    { apply add_all_missing. split; [now apply Hdefaults | exact Hcalls]. }
    congruence.
  - split; [discriminate|]. split; [|reflexivity].
    intros _. apply add_all_missing in E. destruct E as [Hd Hcalls].
    apply Hdefaults in Hd. tauto.
Qed.

Lemma code_inj : forall c d : byte, code c = code d -> c = d.
Proof.
  intros c d H. unfold code in H.
  apply (f_equal Byte.of_N) in H. rewrite !Byte.of_to_N in H. congruence.
Qed.

Lemma text_leb_total : forall x y : text,
    text_leb x y = false -> text_leb y x = true.
Proof.
  induction x as [|c x IH]; intros [|d y]; simpl; try discriminate; try reflexivity.
  destruct (code c <? code d)%N eqn:E1; [discriminate|].
  destruct (code d <? code c)%N eqn:E2; [reflexivity|]. apply IH.
Qed.

Lemma text_leb_antisym : forall x y : text,
    text_leb x y = true -> text_leb y x = true -> x = y.
Proof.
  induction x as [|c x IH]; intros [|d y]; simpl; try discriminate; try reflexivity.
  destruct (code c <? code d)%N eqn:E1, (code d <? code c)%N eqn:E2;
    try discriminate.
  - apply N.ltb_lt in E1, E2. lia.
  - intros H1 H2. apply N.ltb_ge in E1, E2.
    rewrite (code_inj c d) by lia. f_equal. now apply IH.
Qed.

Lemma text_leb_trans : forall x y z : text,
    text_leb x y = true -> text_leb y z = true -> text_leb x z = true.
Proof.
  induction x as [|c x IH]; intros [|d y] [|e z]; simpl;
    try discriminate; try reflexivity.
  destruct (code c <? code d)%N eqn:E1, (code d <? code c)%N eqn:E2,
           (code d <? code e)%N eqn:E3, (code e <? code d)%N eqn:E4,
           (code c <? code e)%N eqn:E5, (code e <? code c)%N eqn:E6;
    try discriminate; try reflexivity;
    try (apply N.ltb_lt in E1); try (apply N.ltb_ge in E1);
    try (apply N.ltb_lt in E2); try (apply N.ltb_ge in E2);
    try (apply N.ltb_lt in E3); try (apply N.ltb_ge in E3);
    try (apply N.ltb_lt in E4); try (apply N.ltb_ge in E4);
    try (apply N.ltb_lt in E5); try (apply N.ltb_ge in E5);
    try (apply N.ltb_lt in E6); try (apply N.ltb_ge in E6);
    try lia.
  apply IH.
Qed.

Lemma insert_item_perm : forall item items,
    Permutation (item :: items) (insert_item item items).
Proof.
  intros item. induction items as [|i items IH]; simpl; [reflexivity|].
  destruct (text_leb (fst item) (fst i)); [reflexivity|].
  rewrite perm_swap. now constructor.
Qed.

Lemma sorted_perm : forall items, Permutation items (sorted items).
Proof.
  induction items as [|item items IH]; simpl; [reflexivity|].
  rewrite <- insert_item_perm. now constructor.
Qed.

Lemma insert_item_sorted : forall item items,
    StronglySorted (fun i j => text_leb (fst i) (fst j) = true) items ->
    StronglySorted (fun i j => text_leb (fst i) (fst j) = true)
                   (insert_item item items).
Proof.
  intros item. induction items as [|i items IH]; intros H; simpl.
  - repeat constructor.
  - inversion H as [|? ? Hs Hall]; subst.
    destruct (text_leb (fst item) (fst i)) eqn:E.
    + constructor; [assumption|]. constructor; [assumption|].
      rewrite Forall_forall in *. intros j Hj.
      eapply text_leb_trans; [exact E | now apply Hall].
    + constructor; [now apply IH|].
      rewrite Forall_forall in *. intros j Hj.
      apply (Permutation_in _ (Permutation_sym (insert_item_perm item items))) in Hj.
      destruct Hj as [<-|Hj]; [now apply text_leb_total | now apply Hall].
Qed.

Lemma sorted_sorted : forall items,
    StronglySorted (fun i j => text_leb (fst i) (fst j) = true) (sorted items).
Proof.
  induction items as [|item items IH]; simpl; [constructor|].
  now apply insert_item_sorted.
Qed.

Lemma sorted_unique : forall l1 l2 : poly_dict,
    NoDup (map fst l1) ->
    StronglySorted (fun i j => text_leb (fst i) (fst j) = true) l1 ->
    StronglySorted (fun i j => text_leb (fst i) (fst j) = true) l2 ->
    Permutation l1 l2 ->
    l1 = l2.
Proof.
  induction l1 as [|a l1 IH]; intros l2 Hnd H1 H2 Hp.
  - apply Permutation_nil in Hp. now subst.
  - destruct l2 as [|c l2]; [apply Permutation_sym, Permutation_nil in Hp; discriminate|].
    inversion H1 as [|? ? Hs1 Ha]; subst.
    inversion H2 as [|? ? Hs2 Hc]; subst.
    inversion Hnd as [|? ? Hnotin Hnd']; subst.
    rewrite Forall_forall in Ha, Hc.
    assert (Hac : a = c).
    { assert (Hin_a : In a (c :: l2))
        by (apply (Permutation_in _ Hp); now left).
      assert (Hin_c : In c (a :: l1))
        by (apply (Permutation_in _ (Permutation_sym Hp)); now left).
      destruct Hin_a as [E|Hin_a]; [now subst|].
      destruct Hin_c as [E|Hin_c]; [now subst|].
      exfalso. apply Hnotin.
      rewrite (text_leb_antisym (fst a) (fst c) (Ha _ Hin_c) (Hc _ Hin_a)).
      now apply in_map. }
    subst c. f_equal.
    apply IH; try assumption. now apply Permutation_cons_inv in Hp.
Qed.

(** X20.  The listing [polynoms_list] gives depends on the items of the
    dict and not on the order they were stored in: two dicts with the same
    items list alike, the items in the order of their names. *)
Theorem polynoms_list_order :
  forall d d' : poly_dict,
    NoDup (map fst d) ->
    Permutation d d' ->
    polynoms_list d = polynoms_list d' /\
    StronglySorted (fun i j => text_leb (fst i) (fst j) = true) (sorted d) /\
    Permutation d (sorted d).
Proof.
  intros d d' Hnd Hp. split; [|split; [apply sorted_sorted | apply sorted_perm]].
  unfold polynoms_list. f_equal. f_equal.
  apply sorted_unique.
  - eapply Permutation_NoDup; [|exact Hnd].
    apply Permutation_map. apply sorted_perm.
  - apply sorted_sorted.
  - apply sorted_sorted.
  - rewrite <- (sorted_perm d), <- (sorted_perm d'). exact Hp.
Qed.

Lemma polynoms_list_order_witness :
  polynoms_list [(b "hlv", [0.5%float; 0%float]); (b "equ", [1%float; 0%float])]
  = polynoms_list Calibrations /\
  polynoms_list Calibrations = b "equ: [1.0, 0.0], hlv: [0.5, 0.0]".
Proof.
  split; [|vm_compute; reflexivity].
  apply (@polynoms_list_order
           [(b "hlv", [0.5%float; 0%float]); (b "equ", [1%float; 0%float])]
           Calibrations).
  - repeat constructor; simpl; intuition discriminate.
  - apply perm_swap.
Defined.
